(** * Nardis: the turn orchestrator of the rail-trading game

    A shallow embedding of [src/modules/nardis.ts] and the properties of its
    route pricing, win check, upgrade and queue transactions, turn hand-over
    and storage guard.

    Numbers.  The prices handled by [getPotentialRouteCost] are JavaScript
    numbers; they are modelled as exact rationals ([Q]), with [Math.floor] as
    [Qfloor].  The turn counter, gold balances, catalogue costs and ledger
    quantities are whole numbers in the game and are modelled in [Z]. *)

From Stdlib Require Import ZArith QArith Qround Lia Lqa.
From stdpp Require Import base option list strings gmap.

Local Open Scope Q_scope.

(** ** Arrays *)

(** [Array.prototype.forEach] with a callback that updates captured [let]
    variables: the captured variables are the threaded state [s]. *)
Fixpoint forEach {A S : Type} (callback : A -> S -> S) (arr : list A) (s : S) : S :=
  match arr with
  | [] => s
  | e :: rest => forEach callback rest (callback e s)
  end.

(** The values the captured variables take after each call of the callback,
    in the order of the calls. *)
Fixpoint forEachTrace {A S : Type} (callback : A -> S -> S) (arr : list A) (s : S) : list S :=
  match arr with
  | [] => []
  | e :: rest => callback e s :: forEachTrace callback rest (callback e s)
  end.

(** ** Upgrades *)

(** Modelled from the spec: the [UpgradeType] enum of [types/types], which is
    not part of the sources at hand.  The three kinds the orchestrator tests
    for are named; every other kind is an [OtherUpgradeType]. *)
Inductive UpgradeType : Set :=
| TrackValueCheaper
| TrainValueCheaper
| TurnCostCheaper
| OtherUpgradeType (tag : nat).

Definition UpgradeType_eqb (a b : UpgradeType) : bool :=
  match a, b with
  | TrackValueCheaper, TrackValueCheaper => true
  | TrainValueCheaper, TrainValueCheaper => true
  | TurnCostCheaper, TurnCostCheaper => true
  | OtherUpgradeType m, OtherUpgradeType n => Nat.eqb m n
  | _, _ => false
  end.

(** The fields of [Upgrade] the orchestrator reads. *)
Record Upgrade : Set := mkUpgrade {
  upgrade_id    : string;
  upgrade_type  : UpgradeType;
  upgrade_value : Q;
  upgrade_cost  : Z
}.

(** ** Route pricing *)

Module Pricing.

Record RouteCost : Set := mkRouteCost { goldCost : Q; turnCost : Q }.

(** A JavaScript number in a condition: [0] is falsy. *)
Definition truthy (x : Q) : bool := negb (Qeq_bool x 0).

(** [Math.floor], back in the number type. *)
Definition Math_floor (x : Q) : Q := inject_Z (Qfloor x).

(** The body of [valUp.forEach]: [goldCost] is the captured variable. *)
Definition valUp_callback (e : Upgrade) (goldCost : Q) : Q :=
  let value := Math_floor (goldCost * upgrade_value e) in
  if Qlt_le_dec (goldCost - value) 10 then 10 else goldCost - value.

(** The body of [turnUp.forEach]: [turnCost] is the captured variable. *)
Definition turnUp_callback (e : Upgrade) (turnCost : Q) : Q :=
  if Qle_bool 2 turnCost then turnCost - upgrade_value e else turnCost.

(** The two kinds of upgrade the pricing looks for. *)
Definition isTrackValueCheaper (u : Upgrade) : Prop := upgrade_type u = TrackValueCheaper.
Definition isTurnCostCheaper (u : Upgrade) : Prop := upgrade_type u = TurnCostCheaper.

Section WithRangeTurnCost.

(** [getRangeTurnCost] of [util/util] is not part of the sources at hand;
    the pricing is stated for an arbitrary one. *)
Variable getRangeTurnCost : Q -> Q.

Definition valUp (upgrades : list Upgrade) : list Upgrade :=
  List.filter (fun upgrade => UpgradeType_eqb (upgrade_type upgrade) TrackValueCheaper) upgrades.

Definition turnUp (upgrades : list Upgrade) : list Upgrade :=
  List.filter (fun upgrade => UpgradeType_eqb (upgrade_type upgrade) TurnCostCheaper) upgrades.

(** [getPotentialRouteCost]; [upgrades] is
    [this._currentPlayer.getUpgrades()], the only state the method reads. *)
Definition getPotentialRouteCost (upgrades : list Upgrade) (distance : Q) : RouteCost :=
  let goldCost := forEach valUp_callback (valUp upgrades) (distance * 2) in
  let turnCost := forEach turnUp_callback (turnUp upgrades) (getRangeTurnCost distance) in
  {| goldCost := goldCost;
     turnCost := if truthy turnCost then turnCost else 1 |}.

(** The successive values of [goldCost] and [turnCost] inside the two loops. *)
Definition goldCostTrace (upgrades : list Upgrade) (distance : Q) : list Q :=
  forEachTrace valUp_callback (valUp upgrades) (distance * 2).

Definition turnCostTrace (upgrades : list Upgrade) (distance : Q) : list Q :=
  forEachTrace turnUp_callback (turnUp upgrades) (getRangeTurnCost distance).

End WithRangeTurnCost.

End Pricing.

(** *** The gold loop over the machine's product

    [Pricing] takes the product [goldCost * e.value] exactly.  A JavaScript
    engine rounds it to a double before [Math.floor] sees it, and the floor
    can then differ by one from the floor of the exact product.  Here the
    product is left to the machine: [times x y] is [x * y] as it computes
    it.  With [Qmult] for [times] this is [Pricing.getPotentialRouteCost]. *)

Module MachinePricing.

Section WithProduct.

Variable times : Q -> Q -> Q.
Variable getRangeTurnCost : Q -> Q.

(** The body of [valUp.forEach]: [goldCost] is the captured variable. *)
Definition valUp_callback (e : Upgrade) (goldCost : Q) : Q :=
  let value := Pricing.Math_floor (times goldCost (upgrade_value e)) in
  if Qlt_le_dec (goldCost - value) 10 then 10 else goldCost - value.

(** [getPotentialRouteCost]; [upgrades] is
    [this._currentPlayer.getUpgrades()]. *)
Definition getPotentialRouteCost (upgrades : list Upgrade) (distance : Q)
  : Pricing.RouteCost :=
  let valUp :=
    List.filter (fun upgrade => UpgradeType_eqb (upgrade_type upgrade) TrackValueCheaper)
                upgrades in
  let turnUp :=
    List.filter (fun upgrade => UpgradeType_eqb (upgrade_type upgrade) TurnCostCheaper)
                upgrades in
  let goldCost := forEach valUp_callback valUp (times distance 2) in
  let turnCost := forEach Pricing.turnUp_callback turnUp (getRangeTurnCost distance) in
  {| Pricing.goldCost := goldCost;
     Pricing.turnCost := if Pricing.truthy turnCost then turnCost else 1 |}.

(** The [goldCost] quoted to a player with the upgrades [ups]. *)
Definition goldCostFor (ups : list Upgrade) (distance : Q) : Q :=
  Pricing.goldCost (getPotentialRouteCost ups distance).

End WithProduct.

End MachinePricing.

(** ** Entities the orchestrator works with *)

(** Modelled from the spec: the [PlayerType] and [FinanceType] enums of
    [types/types], which are not part of the sources at hand. *)
Inductive PlayerType : Set := Human | Computer.

Definition PlayerType_eqb (a b : PlayerType) : bool :=
  match a, b with
  | Human, Human | Computer, Computer => true
  | _, _ => false
  end.

Inductive FinanceType : Set :=
| FinanceTrack
| FinanceTrain
| FinanceUpgrade
| OtherFinanceType (tag : nat).

Definition FinanceType_eqb (a b : FinanceType) : bool :=
  match a, b with
  | FinanceTrack, FinanceTrack => true
  | FinanceTrain, FinanceTrain => true
  | FinanceUpgrade, FinanceUpgrade => true
  | OtherFinanceType m, OtherFinanceType n => Nat.eqb m n
  | _, _ => false
  end.

(** The [LocalKey] enum indexes [localKeys], one storage key per category. *)
Inductive LocalKey : Set :=
| HasActiveGame | Trains | Resources | Upgrades | Cities | Players
| CurrentPlayer | Turn.

(** The catalogue entries, reduced to what the orchestrator reads. *)
Record Train : Set := mkTrain { train_id : string; train_cost : Z }.
Record City : Set := mkCity { city_name : string }.
Record Resource : Set := mkResource { resource_name : string }.
Record Route : Set := mkRoute { route_id : string; route_goldCost : Q }.

Record GameData : Set := mkGameData {
  trains    : list Train;
  upgrades  : list Upgrade;
  resources : list Resource;
  cities    : list City
}.

(** *** Finance *)

(** Modelled from the spec: the [Finance] class of [core/player/finance],
    which is not part of the sources at hand.  The expense side of the ledger
    is a list of entries keyed by category and subject id. *)
Record FinanceEntry : Set := mkFinanceEntry {
  entry_type     : FinanceType;
  entry_id       : string;
  entry_quantity : Z;
  entry_cost     : Z
}.

Record Finance : Set := mkFinance { expense : list FinanceEntry }.

Definition entry_matches (type : FinanceType) (id : string) (e : FinanceEntry) : bool :=
  FinanceType_eqb (entry_type e) type && String.eqb (entry_id e) id.

(** Deletes the first entry that matches; [None] when there is none. *)
Fixpoint remove_entry (type : FinanceType) (id : string) (l : list FinanceEntry)
  : option (list FinanceEntry) :=
  match l with
  | [] => None
  | e :: rest =>
      if entry_matches type id e then Some rest
      else match remove_entry type id rest with
           | Some rest' => Some (e :: rest')
           | None => None
           end
  end.

(** Adds [quantity] to the first entry that matches; [None] when there is none. *)
Fixpoint merge_entry (type : FinanceType) (id : string) (quantity : Z) (l : list FinanceEntry)
  : option (list FinanceEntry) :=
  match l with
  | [] => None
  | e :: rest =>
      if entry_matches type id e
      then Some (mkFinanceEntry type id (entry_quantity e + quantity) (entry_cost e) :: rest)
      else match merge_entry type id quantity rest with
           | Some rest' => Some (e :: rest')
           | None => None
           end
  end.

(** Modelled from the spec: [addToFinanceExpense(category, subjectId,
    quantity, unitCost)] appends a ledger entry, or merges into the entry
    with the same key. *)
Definition Finance_addToFinanceExpense
    (type : FinanceType) (id : string) (quantity cost : Z) (f : Finance) : Finance :=
  match merge_entry type id quantity (expense f) with
  | Some l => mkFinance l
  | None => mkFinance (expense f ++ [mkFinanceEntry type id quantity cost])
  end.

(** Modelled from the spec: [removeFromFinanceExpense(category, subjectId)]
    deletes the matching entry and returns whether one was found. *)
Definition Finance_removeFromFinanceExpense
    (type : FinanceType) (id : string) (f : Finance) : bool * Finance :=
  match remove_entry type id (expense f) with
  | Some l => (true, mkFinance l)
  | None => (false, f)
  end.

(** *** Player *)

(** Modelled from the spec: the [Player] class of [core/player/player], which
    is not part of the sources at hand.  An array slot holds [None] when it
    holds [undefined]. *)
Record Player : Set := mkPlayer {
  player_id  : string;
  playerType : PlayerType;
  gold       : Z;
  range      : Z;
  _routes    : list Route;
  _upgrades  : list (option Upgrade);
  _finance   : Finance;
  _queue     : list (Route * Q)
}.

Definition set_upgrades (l : list (option Upgrade)) (p : Player) : Player :=
  mkPlayer (player_id p) (playerType p) (gold p) (range p) (_routes p) l (_finance p) (_queue p).

Definition set_finance (f : Finance) (p : Player) : Player :=
  mkPlayer (player_id p) (playerType p) (gold p) (range p) (_routes p) (_upgrades p) f (_queue p).

Definition set_queue (q : list (Route * Q)) (p : Player) : Player :=
  mkPlayer (player_id p) (playerType p) (gold p) (range p) (_routes p) (_upgrades p) (_finance p) q.

(** Modelled from the spec: [addUpgrade(upgrade)] grants the upgrade: it is
    pushed on the player's list, whatever value the caller hands over. *)
Definition Player_addUpgrade (upgrade : option Upgrade) (p : Player) : Player :=
  set_upgrades (_upgrades p ++ [upgrade]) p.

Definition queue_has (routeId : string) (q : list (Route * Q)) : bool :=
  existsb (fun e => String.eqb (route_id (fst e)) routeId) q.

Fixpoint queue_remove (routeId : string) (q : list (Route * Q)) : list (Route * Q) :=
  match q with
  | [] => []
  | e :: rest =>
      if String.eqb (route_id (fst e)) routeId then rest
      else e :: queue_remove routeId rest
  end.

(** No queued route has this id. *)
Definition notQueued (routeId : string) (p : Player) : Prop :=
  Forall (fun e => route_id (fst e) <> routeId) (_queue p).

(** Modelled from the spec: [removeRouteFromQueue(routeId)] removes the
    queued route and tells whether it was found. *)
Definition Player_removeRouteFromQueue (routeId : string) (p : Player) : bool * Player :=
  if queue_has routeId (_queue p)
  then (true, set_queue (queue_remove routeId (_queue p)) p)
  else (false, p).

(** Finance methods reached through [player.getFinance()]. *)
Definition Player_onFinance {A : Type} (method : Finance -> A * Finance) (p : Player)
  : A * Player :=
  let '(a, f) := method (_finance p) in (a, set_finance f p).

(** ** The object store and the orchestrator's state *)

(** Player objects live in a store and are handed around by reference:
    [this.players] and [this._currentPlayer] hold references, and a method
    that mutates a player mutates the one object every holder sees. *)
Definition ref : Set := nat.

Inductive Exception : Set :=
| TypeError (reading : string)
| Error (message : string).

Inductive Completion (A : Type) : Type :=
| Normal (a : A)
| Throw (e : Exception).
Arguments Normal {A} a.
Arguments Throw {A} e.

(** The fields of a [Nardis] instance.  [_currentPlayer] is [None] when it
    holds [undefined]. *)
Record Nardis : Set := mkNardis {
  data           : GameData;
  players        : list ref;
  _currentPlayer : option ref;
  _turn          : Z
}.

Definition set_currentPlayer (c : option ref) (n : Nardis) : Nardis :=
  mkNardis (data n) (players n) c (_turn n).

Definition set_turn (t : Z) (n : Nardis) : Nardis :=
  mkNardis (data n) (players n) (_currentPlayer n) t.

(** Everything a method can read or write: the player objects, the browser's
    [window.localStorage], the instance, and (for the statements about turn
    hand-over) the list of players whose [handleTurn] the orchestrator has
    called, oldest first. *)
Record World : Type := mkWorld {
  heap            : gmap ref Player;
  localStorage    : gmap string string;
  this            : Nardis;
  handleTurnCalls : list ref
}.

Definition set_heap (h : gmap ref Player) (w : World) : World :=
  mkWorld h (localStorage w) (this w) (handleTurnCalls w).

Definition set_localStorage (s : gmap string string) (w : World) : World :=
  mkWorld (heap w) s (this w) (handleTurnCalls w).

Definition set_this (n : Nardis) (w : World) : World :=
  mkWorld (heap w) (localStorage w) n (handleTurnCalls w).

Definition log_handleTurn (r : ref) (w : World) : World :=
  mkWorld (heap w) (localStorage w) (this w) (handleTurnCalls w ++ [r]).

(** Every reference of [l] is to a player object. *)
Definition allObjects (l : list ref) (w : World) : Prop :=
  Forall (fun r => is_Some (heap w !! r)) l.

(** The player at [r] is computer-controlled. *)
Definition isComputerAt (w : World) (r : ref) : bool :=
  match heap w !! r with
  | Some p => PlayerType_eqb (playerType p) Computer
  | None => false
  end.

(** The player at [r] has more gold than the victory threshold. *)
Definition hasWinningGoldAt (w : World) (r : ref) : bool :=
  match heap w !! r with
  | Some p => (10000 <? gold p)%Z
  | None => false
  end.

(** The player at [r] has this id. *)
Definition hasIdAt (w : World) (id : string) (r : ref) : bool :=
  match heap w !! r with
  | Some p => String.eqb (player_id p) id
  | None => false
  end.

(** What a world keeps while the turn is handed around: the turn counter, the
    storage, the player list and the catalogue. *)
Definition sameGame (w w' : World) : Prop :=
  _turn (this w') = _turn (this w) /\
  localStorage w' = localStorage w /\
  players (this w') = players (this w) /\
  data (this w') = data (this w).

(** Methods: state passing with exceptions.  A thrown exception keeps the
    mutations made before it. *)
Definition M (A : Type) : Type := World -> Completion A * World.

#[export] Instance M_ret : MRet M := fun A a w => (Normal a, w).

#[export] Instance M_bind : MBind M := fun A B k m w =>
  match m w with
  | (Normal a, w') => k a w'
  | (Throw e, w') => (Throw e, w')
  end.

Definition throw {A : Type} (e : Exception) : M A := fun w => (Throw e, w).
Definition gets {A : Type} (f : World -> A) : M A := fun w => (Normal (f w), w).
Definition modify (f : World -> World) : M unit := fun w => (Normal tt, f w).
Definition lift {A : Type} (c : Completion A) : M A := fun w => (c, w).

(** Reading a property of [r], which fails on [undefined]. *)
Definition deref (reading : string) (r : option ref) : M Player := fun w =>
  match r ≫= (heap w !!.) with
  | Some p => (Normal p, w)
  | None => (Throw (TypeError reading), w)
  end.

(** Calling a mutating method of the player object at [r]. *)
Definition invoke {A : Type} (reading : string) (r : option ref)
    (method : Player -> A * Player) : M A :=
  p ← deref reading r;
  let '(a, p') := method p in
  match r with
  | Some r => modify (fun w => set_heap (<[r := p']> (heap w)) w);; mret a
  | None => mret a
  end.

(** [forEach] with a callback that can throw: the first exception ends the
    iteration. *)
Fixpoint forEachM {A : Type} (callback : A -> M unit) (arr : list A) : M unit :=
  match arr with
  | [] => mret tt
  | e :: rest => callback e;; forEachM callback rest
  end.

(** [filter] with a callback that can throw. *)
Fixpoint filterM {A : Type} (callback : A -> M bool) (arr : list A) : M (list A) :=
  match arr with
  | [] => mret []
  | e :: rest =>
      keep ← callback e;
      kept ← filterM callback rest;
      mret (if keep : bool then e :: kept else kept)
  end.

(** The elements of an array with no [undefined] slot; [None] when there is
    such a slot. *)
Fixpoint definedSlots {A : Type} (arr : list (option A)) : option (list A) :=
  match arr with
  | [] => Some []
  | Some a :: rest =>
      match definedSlots rest with
      | Some l => Some (a :: l)
      | None => None
      end
  | None :: _ => None
  end.

(** Any object, an empty array included, is truthy. *)
Definition array_truthy {A : Type} (arr : list A) : bool := true.

(** [storage.getItem(key)] in a condition: [null] and the empty string are
    falsy. *)
Definition item_truthy (item : option string) : bool :=
  match item with
  | Some s => negb (String.eqb s "")
  | None => false
  end.

(** ** The collaborators of the orchestrator *)

(** What [player.handleTurn] is handed. *)
Record HandleTurnInfo : Set := mkHandleTurnInfo {
  info_turn     : Z;
  info_data     : GameData;
  info_routes   : list Route;
  info_upgrades : list (option Upgrade)
}.

(** The code the orchestrator calls and that is not part of the sources at
    hand: the turn routine of a player, which works on its own object and
    can throw; [getRangeTurnCost] of [util/util]; the [localKeys] table of
    [util/constants]; the encoders behind
    [btoa(JSON.stringify(... deconstruct()))]; and the decoders behind
    [JSON.parse(atob(...))], [createFromStringifiedJSON] and [parseInt]. *)
Record Collaborators : Type := mkCollaborators {
  Player_handleTurn : HandleTurnInfo -> Player -> Completion unit * Player;
  getRangeTurnCost  : Q -> Q;
  localKeys         : LocalKey -> string;
  encodeTrains      : list Train -> string;
  encodeResources   : list Resource -> string;
  encodeUpgrades    : list Upgrade -> string;
  encodeCities      : list City -> string;
  encodePlayers     : list Player -> string;
  encodePlayer      : Player -> string;
  encodeTurn        : Z -> string;
  Json              : Type;
  JSON_parse_atob   : option string -> Completion Json;
  createTrains      : Json -> Completion (list Train);
  createUpgrades    : Json -> Completion (list Upgrade);
  createResources   : Json -> Completion (list Resource);
  createCities      : Json -> list Resource -> Completion (list City);
  createPlayers     : Json -> list City -> list Train -> list Resource
                      -> Completion (list Player);
  raw_id            : Json -> Completion string;
  parseInt          : option string -> option Z
}.

(** Modelled from the spec: [equals(other)] of [Player] is an identity
    comparison, not a structural one. *)
Definition Player_equals (self : ref) (other : option ref) : bool :=
  bool_decide (other = Some self).

(** ** The orchestrator *)

Module NardisClass.

(** The constructor.  An omitted argument is [None]; for [turn], so is [NaN].
    A player object is always truthy, the number [0] is not. *)
Definition new (gameData : GameData) (players : list ref)
    (currentPlayer : option ref) (turn : option Z) : Nardis :=
  {| players := players;
     data := gameData;
     _currentPlayer :=
       match currentPlayer with
       | Some p => Some p
       | None => players !! 0%nat
       end;
     _turn :=
       match turn with
       | Some t => if Z.eqb t 0 then 1%Z else t
       | None => 1%Z
       end |}.

Definition getCurrentPlayer : M (option ref) := gets (fun w => _currentPlayer (this w)).
Definition getCurrentTurn : M Z := gets (fun w => _turn (this w)).

(** What [hasAnyPlayerWon] puts in the [player] field. *)
Inductive Winner : Set := WinnerIs (r : ref) | Undefined | Null.

Record WinState : Set := mkWinState { player : Winner; hasWon : bool }.

Definition first_of (result : list ref) : Winner :=
  match result !! 0%nat with
  | Some r => WinnerIs r
  | None => Undefined
  end.

Definition hasAnyPlayerWon : M WinState :=
  players ← gets (fun w => players (this w));
  result ← filterM (fun player =>
              p ← deref "gold" (Some player);
              mret (10000 <? gold p)%Z) players;
  mret {| player := if array_truthy result then first_of result else Null;
          hasWon := array_truthy result |}.

Definition addUpgradeToPlayer (id : string) : M bool :=
  catalogue ← gets (fun w => upgrades (data (this w)));
  let matchedUpgrade :=
    List.filter (fun upgrade => String.eqb (upgrade_id upgrade) id) catalogue in
  if array_truthy matchedUpgrade then
    current ← getCurrentPlayer;
    invoke "addUpgrade" current
      (fun p => (tt, Player_addUpgrade (matchedUpgrade !! 0%nat) p));;
    deref "getFinance" current;;
    match matchedUpgrade !! 0%nat with
    | None => throw (TypeError "id")
    | Some upgrade =>
        invoke "getFinance" current
          (Player_onFinance (fun f =>
             (tt, Finance_addToFinanceExpense
                    FinanceUpgrade (upgrade_id upgrade) 1 (upgrade_cost upgrade) f)));;
        mret true
    end
  else mret false.

Definition handleRemoveRouteFromPlayerFinance (routeId trainId : string) : M bool :=
  current ← getCurrentPlayer;
  track ← invoke "getFinance" current
             (Player_onFinance (Finance_removeFromFinanceExpense FinanceTrack routeId));
  if track : bool then
    invoke "getFinance" current
      (Player_onFinance (Finance_removeFromFinanceExpense FinanceTrain trainId))
  else mret false.

Definition removeRouteFromPlayerQueue (routeId trainId : string) : M bool :=
  current ← getCurrentPlayer;
  removed ← invoke "removeRouteFromQueue" current (Player_removeRouteFromQueue routeId);
  if removed : bool then handleRemoveRouteFromPlayerFinance routeId trainId
  else mret false.

Section WithCollaborators.

Variable E : Collaborators.

(** [player.handleTurn(info)]: the call is recorded, the player object takes
    the routine's mutations, and the routine's completion is the call's. *)
Definition call_handleTurn (player : ref) (info : HandleTurnInfo) : M unit := fun w =>
  match heap w !! player with
  | Some p =>
      let '(c, p') := Player_handleTurn E info p in
      (c, log_handleTurn player (set_heap (<[player := p']> (heap w)) w))
  | None => (Throw (TypeError "handleTurn"), w)
  end.

(** The body of [this.players.forEach] in [handleComputerTurn].  The
    comparison reads [this._currentPlayer] as it is at that iteration. *)
Definition handleComputerTurn_callback (player : ref) : M unit :=
  current ← getCurrentPlayer;
  p ← deref "equals" (Some player);
  if negb (Player_equals player current)
     && PlayerType_eqb (playerType p) Computer
  then
    modify (fun w => set_this (set_currentPlayer (Some player) (this w)) w);;
    turn ← getCurrentTurn;
    data ← gets (fun w => data (this w));
    call_handleTurn player
      {| info_turn := turn; info_data := data;
         info_routes := _routes p; info_upgrades := _upgrades p |}
  else mret tt.

(** The pieces of one iteration, named for the statements about the loop:
    whether [player] takes a turn, what its routine is handed, and the world
    once the routine has been called and has left [p']. *)
Definition takesTurn (player : ref) (p : Player) (w : World) : bool :=
  negb (Player_equals player (_currentPlayer (this w)))
  && PlayerType_eqb (playerType p) Computer.

Definition infoFor (p : Player) (w : World) : HandleTurnInfo :=
  {| info_turn := _turn (this w); info_data := data (this w);
     info_routes := _routes p; info_upgrades := _upgrades p |}.

Definition handed (player : ref) (p' : Player) (w : World) : World :=
  log_handleTurn player
    (set_heap (<[player := p']> (heap w))
       (set_this (set_currentPlayer (Some player) (this w)) w)).

Definition handleComputerTurn : M unit :=
  actualPlayer ← getCurrentPlayer;
  players ← gets (fun w => players (this w));
  forEachM handleComputerTurn_callback players;;
  modify (fun w => set_this (set_currentPlayer actualPlayer (this w)) w).

(** [getPotentialRouteCost] as a method: the upgrades are those of the
    current player, and reading the [type] of an [undefined] slot throws. *)
Definition getPotentialRouteCost (distance : Q) : M Pricing.RouteCost :=
  current ← getCurrentPlayer;
  p ← deref "getUpgrades" current;
  match definedSlots (_upgrades p) with
  | Some upgrades =>
      mret (Pricing.getPotentialRouteCost (getRangeTurnCost E) upgrades distance)
  | None => throw (TypeError "type")
  end.

Definition setItem (key value : string) : M unit :=
  modify (fun w => set_localStorage (<[key := value]> (localStorage w)) w).

Definition saveGame : M unit :=
  setItem (localKeys E HasActiveGame) "1";;
  data ← gets (fun w => data (this w));
  setItem (localKeys E Trains) (encodeTrains E (trains data));;
  setItem (localKeys E Resources) (encodeResources E (resources data));;
  setItem (localKeys E Upgrades) (encodeUpgrades E (upgrades data));;
  setItem (localKeys E Cities) (encodeCities E (cities data));;
  players ← gets (fun w => players (this w));
  deconstructed ← mapM (fun e => deref "deconstruct" (Some e)) players;
  setItem (localKeys E Players) (encodePlayers E deconstructed);;
  current ← getCurrentPlayer;
  p ← deref "deconstruct" current;
  setItem (localKeys E CurrentPlayer) (encodePlayer E p);;
  turn ← getCurrentTurn;
  setItem (localKeys E Turn) (encodeTurn E turn).

Definition endTurn : M unit :=
  handleComputerTurn;;
  modify (fun w => set_this (set_turn (_turn (this w) + 1) (this w)) w);;
  saveGame.

(** A new player object, at an address no object has. *)
Definition alloc (p : Player) : M ref := fun w =>
  let r := fresh (dom (heap w)) in
  (Normal r, set_heap (<[r := p]> (heap w)) w).

Definition getItem (key : string) : M (option string) :=
  gets (fun w => localStorage w !! key).

(** The static [createFromLocalStorage]: it returns the new instance and
    leaves its player objects in the store. *)
Definition createFromLocalStorage : M Nardis :=
  flag ← getItem (localKeys E HasActiveGame);
  if negb (item_truthy flag) then
    throw (Error "cannot recreate from empty storage")
  else
    trainsRaw ← getItem (localKeys E Trains) ≫= (lift ∘ JSON_parse_atob E);
    citiesRaw ← getItem (localKeys E Cities) ≫= (lift ∘ JSON_parse_atob E);
    resourcesRaw ← getItem (localKeys E Resources) ≫= (lift ∘ JSON_parse_atob E);
    upgradesRaw ← getItem (localKeys E Upgrades) ≫= (lift ∘ JSON_parse_atob E);
    playersRaw ← getItem (localKeys E Players) ≫= (lift ∘ JSON_parse_atob E);
    currentPlayerRaw ← getItem (localKeys E CurrentPlayer) ≫= (lift ∘ JSON_parse_atob E);
    trains ← lift (createTrains E trainsRaw);
    upgrades ← lift (createUpgrades E upgradesRaw);
    resources ← lift (createResources E resourcesRaw);
    cities ← lift (createCities E citiesRaw resources);
    objects ← lift (createPlayers E playersRaw cities trains resources);
    players ← mapM alloc objects;
    matching ← filterM (fun player =>
                  p ← deref "id" (Some player);
                  id ← lift (raw_id E currentPlayerRaw);
                  mret (String.eqb (player_id p) id)) players;
    turn ← getItem (localKeys E Turn);
    mret (new (mkGameData trains upgrades resources cities)
              players (matching !! 0%nat) (parseInt E turn)).

End WithCollaborators.

End NardisClass.

(** ** Sample games

    Concrete collaborators, players and worlds on which the model is run. *)

Module Samples.
Import NardisClass.

Definition sampleKeys (key : LocalKey) : string :=
  match key with
  | HasActiveGame => "hasActiveGame"
  | Trains => "trains"
  | Resources => "resources"
  | Upgrades => "upgrades"
  | Cities => "cities"
  | Players => "players"
  | CurrentPlayer => "currentPlayer"
  | Turn => "turn"
  end.

(** Collaborators whose turn routine is [routine]; the turn cost by range,
    the encoders and the decoders are placeholders. *)
Definition collaborators
    (routine : HandleTurnInfo -> Player -> Completion unit * Player) : Collaborators :=
  {| Player_handleTurn := routine;
     getRangeTurnCost := fun distance => if Qle_bool distance 100 then 2 else 3;
     localKeys := sampleKeys;
     encodeTrains := fun _ => "trains";
     encodeResources := fun _ => "resources";
     encodeUpgrades := fun _ => "upgrades";
     encodeCities := fun _ => "cities";
     encodePlayers := fun _ => "players";
     encodePlayer := player_id;
     encodeTurn := fun _ => "turn";
     Json := unit;
     JSON_parse_atob := fun _ => Normal tt;
     createTrains := fun _ => Normal [];
     createUpgrades := fun _ => Normal [];
     createResources := fun _ => Normal [];
     createCities := fun _ _ => Normal [];
     createPlayers := fun _ _ _ _ => Normal [];
     raw_id := fun _ => Normal "";
     parseInt := fun _ => None |}.

(** A turn routine that does nothing, and one that always throws. *)
Definition quietTurn (info : HandleTurnInfo) (p : Player) : Completion unit * Player :=
  (Normal tt, p).

Definition failingTurn (info : HandleTurnInfo) (p : Player) : Completion unit * Player :=
  (Throw (Error "computer turn failed"), p).

Definition freshPlayer (id : string) (type : PlayerType) (gold : Z) : Player :=
  mkPlayer id type gold 100 [] [] (mkFinance []) [].

Definition emptyData : GameData := mkGameData [] [] [] [].

(** A human at address 0 and a computer at address 1; the human is current. *)
Definition humanAndComputer : World :=
  mkWorld (<[0%nat := freshPlayer "human" Human 1000]>
             (<[1%nat := freshPlayer "computer" Computer 1000]> ∅))
          ∅
          (new emptyData [0%nat; 1%nat] None None)
          [].

(** Two computers, at addresses 0 and 1 in list order; the second is current. *)
Definition twoComputers : World :=
  mkWorld (<[0%nat := freshPlayer "computer-a" Computer 1000]>
             (<[1%nat := freshPlayer "computer-b" Computer 1000]> ∅))
          ∅
          (new emptyData [0%nat; 1%nat] (Some 1%nat) None)
          [].

(** One human who has queued the route "r1", paid for with a Track expense
    for "r1" and a Train expense for "t1". *)
Definition queuedRoute : Route := mkRoute "r1" 20.

Definition buyer : Player :=
  mkPlayer "human" Human 1000 100 [] []
    (mkFinance [mkFinanceEntry FinanceTrack "r1" 1 20;
                mkFinanceEntry FinanceTrain "t1" 1 50])
    [(queuedRoute, 2)].

Definition withQueuedRoute : World :=
  mkWorld (<[0%nat := buyer]> ∅) ∅ (new emptyData [0%nat] None None) [].

End Samples.

(** ** The rest of the orchestrator

    The listing of routes and trains offered to the current player, the
    purchase of a route, and the clearing of storage. *)

(** [forEach] with a callback that updates captured variables and can throw:
    the captured variables are threaded, the first exception ends the
    iteration. *)
Fixpoint foldM {A S : Type} (callback : A -> S -> M S) (arr : list A) (s : S) : M S :=
  match arr with
  | [] => mret s
  | e :: rest => s' ← callback e s; foldM callback rest s'
  end.

Module TrainPricing.

Definition isTrainValueCheaper (u : Upgrade) : Prop := upgrade_type u = TrainValueCheaper.

Definition trainUp (upgrades : list Upgrade) : list Upgrade :=
  List.filter (fun upgrade => UpgradeType_eqb (upgrade_type upgrade) TrainValueCheaper) upgrades.

(** The body of [upgrades.forEach] in [getArrayOfAdjustedTrains]: [cost] is
    the captured variable. *)
Definition trainUp_callback (upgrade : Upgrade) (cost : Q) : Q :=
  cost - Pricing.Math_floor (cost * upgrade_value upgrade).

(** The body of [this.data.trains.map]; [upgrades] is the filtered list. *)
Definition adjustedCost (upgrades : list Upgrade) (train : Train) : Q :=
  forEach trainUp_callback upgrades (inject_Z (train_cost train)).

(** Every TrainValueCheaper upgrade of the list has a value from 0 to 1. *)
Definition discounts (upgrades : list Upgrade) : Prop :=
  Forall (fun u => isTrainValueCheaper u -> 0 <= upgrade_value u <= 1) upgrades.

End TrainPricing.

(** Modelled from the spec: [addRouteToQueue(route, turnCost)] of [Player]
    enqueues the route with its turn cost. *)
Definition Player_addRouteToQueue (route : Route) (turnCost : Q) (p : Player) : Player :=
  set_queue (_queue p ++ [(route, turnCost)]) p.

(** The ledger has an expense entry under this category and subject id. *)
Definition hasExpense (type : FinanceType) (id : string) (p : Player) : bool :=
  existsb (entry_matches type id) (expense (_finance p)).

(** The [localKeys] array: one key per member of [LocalKey]. *)
Definition localKeysArray : list LocalKey :=
  [HasActiveGame; Trains; Resources; Upgrades; Cities; Players; CurrentPlayer; Turn].

Module NardisRest.
Import NardisClass.

Record PotentialRoute : Set := mkPotentialRoute {
  cityOne         : City;
  cityTwo         : City;
  distance        : Q;
  goldCost        : Q;
  turnCost        : Q;
  purchasedOnTurn : Z
}.

(** A [BuyableRoute]: a potential route with the train chosen for it.  The
    cargo plan travels with it to the Route constructor and is not looked
    at by the orchestrator. *)
Record BuyableRoute : Set := mkBuyableRoute {
  buy_cityOne         : City;
  buy_cityTwo         : City;
  buy_train           : Train;
  buy_distance        : Q;
  buy_goldCost        : Z;
  buy_turnCost        : Q;
  buy_trainCost       : Z;
  buy_purchasedOnTurn : Z
}.

(** The player once the route is bought, when the ledger had no entry under
    either key: two more expenses, one more queue entry. *)
Definition bought (b : BuyableRoute) (route : Route) (p : Player) : Player :=
  mkPlayer (player_id p) (playerType p) (gold p) (range p) (_routes p) (_upgrades p)
    (mkFinance (expense (_finance p) ++
                  [mkFinanceEntry FinanceTrack (route_id route) 1 (buy_goldCost b);
                   mkFinanceEntry FinanceTrain (train_id (buy_train b)) 1 (buy_trainCost b)]))
    (_queue p ++ [(route, buy_turnCost b)]).

Definition getArrayOfAdjustedTrains : M (list (Train * Q)) :=
  current ← getCurrentPlayer;
  p ← deref "getUpgrades" current;
  match definedSlots (_upgrades p) with
  | Some all =>
      let upgrades := TrainPricing.trainUp all in
      trains ← gets (fun w => trains (data (this w)));
      mret (List.map (fun train => (train, TrainPricing.adjustedCost upgrades train)) trains)
  | None => throw (TypeError "type")
  end.

Definition removeItem (key : string) : M unit :=
  modify (fun w => set_localStorage (delete key (localStorage w)) w).

Section WithCollaborators.

Variable E : Collaborators.

(** [city.distanceTo(origin)] of [core/city] and the [Route] constructor of
    [core/route] are not part of the sources at hand.  The constructor is
    handed the name built by the orchestrator and the proposal. *)
Variable distanceTo : City -> City -> Q.
Variable Route_new : string -> BuyableRoute -> Completion Route.

(** Whether a city at this distance is offered to a player of this range. *)
Definition withinRange (constraint : Z) (distance : Q) : bool :=
  negb (Qle_bool distance 0) && Qle_bool distance (inject_Z constraint).

(** The body of [this.data.cities.forEach] in [getArrayOfPossibleRoutes]:
    [potentialRoutes] is the captured array.  The cost is computed before
    the range is looked at. *)
Definition possibleRoutes_callback (origin : City) (constraint : Z)
    (city : City) (potentialRoutes : list PotentialRoute) : M (list PotentialRoute) :=
  let distance := distanceTo city origin in
  cost ← getPotentialRouteCost E distance;
  if withinRange constraint distance then
    turn ← getCurrentTurn;
    mret (potentialRoutes ++
            [{| cityOne := origin;
                cityTwo := city;
                distance := distance;
                goldCost := Pricing.goldCost cost;
                turnCost := Pricing.turnCost cost;
                purchasedOnTurn := turn |}])
  else mret potentialRoutes.

(** The route offered for [city] to a player with the upgrades [ups]. *)
Definition offer (origin : City) (ups : list Upgrade) (turn : Z) (city : City)
  : PotentialRoute :=
  let distance := distanceTo city origin in
  let cost := Pricing.getPotentialRouteCost (getRangeTurnCost E) ups distance in
  {| cityOne := origin; cityTwo := city; distance := distance;
     goldCost := Pricing.goldCost cost; turnCost := Pricing.turnCost cost;
     purchasedOnTurn := turn |}.

Definition getArrayOfPossibleRoutes (origin : City) : M (list PotentialRoute) :=
  current ← getCurrentPlayer;
  p ← deref "getRange" current;
  cities ← gets (fun w => cities (data (this w)));
  foldM (possibleRoutes_callback origin (range p)) cities [].

Definition handleNewRoutePlayerFinance (buyableRoute : BuyableRoute) (id : string) : M unit :=
  current ← getCurrentPlayer;
  deref "getFinance" current;;
  invoke "getFinance" current
    (Player_onFinance (fun f =>
       (tt, Finance_addToFinanceExpense FinanceTrack id 1 (buy_goldCost buyableRoute) f)));;
  invoke "getFinance" current
    (Player_onFinance (fun f =>
       (tt, Finance_addToFinanceExpense
              FinanceTrain (train_id (buy_train buyableRoute)) 1
              (buy_trainCost buyableRoute) f))).

Definition addRouteToPlayerQueue (buyableRoute : BuyableRoute) : M unit :=
  route ← lift (Route_new
                  (city_name (buy_cityOne buyableRoute) +:+ " <--> "
                   +:+ city_name (buy_cityTwo buyableRoute))
                  buyableRoute);
  handleNewRoutePlayerFinance buyableRoute (route_id route);;
  current ← getCurrentPlayer;
  invoke "addRouteToQueue" current
    (fun p => (tt, Player_addRouteToQueue route (buy_turnCost buyableRoute) p)).

Definition clearStorage : M unit :=
  forEachM removeItem (List.map (localKeys E) localKeysArray).

(** The storage once [saveGame] has written its first six entries, and once
    it has written all eight; [objects] are the players and [p] the current
    player at that moment. *)
Definition partlySaved (n : Nardis) (objects : list Player)
    (storage : gmap string string) : gmap string string :=
  <[localKeys E Players := encodePlayers E objects]>
    (<[localKeys E Cities := encodeCities E (cities (data n))]>
       (<[localKeys E Upgrades := encodeUpgrades E (upgrades (data n))]>
          (<[localKeys E Resources := encodeResources E (resources (data n))]>
             (<[localKeys E Trains := encodeTrains E (trains (data n))]>
                (<[localKeys E HasActiveGame := "1"]> storage))))).

Definition savedStorage (n : Nardis) (objects : list Player) (p : Player)
    (storage : gmap string string) : gmap string string :=
  <[localKeys E Turn := encodeTurn E (_turn n)]>
    (<[localKeys E CurrentPlayer := encodePlayer E p]>
       (partlySaved n objects storage)).

End WithCollaborators.

End NardisRest.

(** ** More sample games *)

Module MoreSamples.
Import NardisClass NardisRest.

Definition aarhus : City := mkCity "Aarhus".
Definition odense : City := mkCity "Odense".
Definition copenhagen : City := mkCity "Copenhagen".

(** Aarhus and Odense are 60 apart, Copenhagen is 150 from both. *)
Definition sampleDistance (a b : City) : Q :=
  if String.eqb (city_name a) (city_name b) then 0
  else if String.eqb (city_name a) "Copenhagen" || String.eqb (city_name b) "Copenhagen"
       then 150 else 60.

Definition sampleTrains : list Train := [mkTrain "t1" 55; mkTrain "t2" 120].

Definition trackUpgrade : Upgrade := mkUpgrade "u-track" TrackValueCheaper (1 # 10) 300.
Definition trainUpgrade : Upgrade := mkUpgrade "u-train" TrainValueCheaper (1 # 5) 400.

(** A human of range 100 who owns both upgrades. *)
Definition traveller : Player :=
  mkPlayer "human" Human 1000 100 [] [Some trackUpgrade; Some trainUpgrade]
           (mkFinance []) [].

Definition withCatalogue : World :=
  mkWorld (<[0%nat := traveller]> ∅) ∅
          (new (mkGameData sampleTrains [trackUpgrade; trainUpgrade] []
                           [aarhus; odense; copenhagen])
               [0%nat] None (Some 4%Z))
          [].

(** A Route constructor that takes the name for id. *)
Definition sampleRoute (name : string) (b : BuyableRoute) : Completion Route :=
  Normal (mkRoute name (inject_Z (buy_goldCost b))).

Definition proposal : BuyableRoute :=
  mkBuyableRoute aarhus odense (mkTrain "t1" 55) 60 108 3 44 4.

(** A game built from an empty player list. *)
Definition noPlayers : World :=
  mkWorld ∅ ∅ (new Samples.emptyData [] None None) [].

(** Collaborators whose decoders yield two players, the id "computer" for
    the current player and 0 for the turn. *)
Definition restoring : Collaborators :=
  {| Player_handleTurn := Samples.quietTurn;
     getRangeTurnCost := fun distance => if Qle_bool distance 100 then 2 else 3;
     localKeys := Samples.sampleKeys;
     encodeTrains := fun _ => "trains";
     encodeResources := fun _ => "resources";
     encodeUpgrades := fun _ => "upgrades";
     encodeCities := fun _ => "cities";
     encodePlayers := fun _ => "players";
     encodePlayer := player_id;
     encodeTurn := fun _ => "turn";
     Json := unit;
     JSON_parse_atob := fun _ => Normal tt;
     createTrains := fun _ => Normal sampleTrains;
     createUpgrades := fun _ => Normal [trackUpgrade];
     createResources := fun _ => Normal [];
     createCities := fun _ _ => Normal [aarhus; odense];
     createPlayers := fun _ _ _ _ =>
       Normal [Samples.freshPlayer "human" Human 1000;
               Samples.freshPlayer "computer" Computer 1000];
     raw_id := fun _ => Normal "computer";
     parseInt := fun _ => Some 0%Z |}.

(** A world with one player object at address 0 and the active-game flag in
    storage. *)
Definition withSavedGame : World :=
  mkWorld (<[0%nat := traveller]> ∅)
          (<["hasActiveGame" := "1"]> ∅)
          (new Samples.emptyData [0%nat] None None)
          [].

End MoreSamples.

(** * Properties *)

(** ** Loops over arrays *)

Lemma forEach_app {A S : Type} (callback : A -> S -> S) (l1 l2 : list A) (s : S) :
  forEach callback (l1 ++ l2) s = forEach callback l2 (forEach callback l1 s).
Proof.
  revert s. induction l1 as [|e l1 IH]; intros s; simpl; [reflexivity|].
  apply IH.
Qed.

Lemma forEach_snoc {A S : Type} (callback : A -> S -> S) (l : list A) (e : A) (s : S) :
  forEach callback (l ++ [e]) s = callback e (forEach callback l s).
Proof. rewrite forEach_app. reflexivity. Qed.

(** An invariant that every call of the callback establishes holds of every
    value of the trace. *)
Lemma forEachTrace_Forall {A S : Type} (callback : A -> S -> S) (P : S -> Prop) :
  (forall e s, P (callback e s)) ->
  forall l s, Forall P (forEachTrace callback l s).
Proof.
  intros Hstep l. induction l as [|e l IH]; intros s; simpl; constructor; auto.
Qed.

(** An invariant that every call of the callback preserves holds of every
    value of the trace, when it holds at the start. *)
Lemma forEachTrace_preserved {A S : Type} (callback : A -> S -> S)
    (P : S -> Prop) (R : A -> Prop) :
  (forall e s, R e -> P s -> P (callback e s)) ->
  forall l s, Forall R l -> P s -> Forall P (forEachTrace callback l s).
Proof.
  intros Hstep l. induction l as [|e l IH]; intros s HR Hs; simpl; [constructor|].
  inversion HR; subst. constructor; auto.
Qed.

Lemma forEach_preserved {A S : Type} (callback : A -> S -> S)
    (P : S -> Prop) (R : A -> Prop) :
  (forall e s, R e -> P s -> P (callback e s)) ->
  forall l s, Forall R l -> P s -> P (forEach callback l s).
Proof.
  intros Hstep l. induction l as [|e l IH]; intros s HR Hs; simpl; [exact Hs|].
  inversion HR; subst. auto.
Qed.

(** ** Route pricing *)

Module PricingFacts.
Import Pricing.

Lemma UpgradeType_eqb_eq (a b : UpgradeType) : UpgradeType_eqb a b = true <-> a = b.
Proof.
  destruct a, b; simpl; split; intros H; try congruence; try discriminate.
  - apply Nat.eqb_eq in H. congruence.
  - inversion H. apply Nat.eqb_refl.
Qed.

Lemma valUp_nonempty (ups : list Upgrade) :
  Exists isTrackValueCheaper ups -> valUp ups <> [].
Proof.
  unfold valUp. induction 1 as [u l Hu | u l _ IH]; simpl.
  - apply UpgradeType_eqb_eq in Hu. rewrite Hu. discriminate.
  - destruct (UpgradeType_eqb _ _); [discriminate | exact IH].
Qed.

Lemma valUp_empty (ups : list Upgrade) :
  valUp ups = [] -> ~ Exists isTrackValueCheaper ups.
Proof. intros H Hex. exact (valUp_nonempty ups Hex H). Qed.

Lemma turnUp_Forall (R : Upgrade -> Prop) (ups : list Upgrade) :
  Forall (fun u => isTurnCostCheaper u -> R u) ups -> Forall R (turnUp ups).
Proof.
  unfold turnUp. induction 1 as [|u l Hu _ IH]; simpl; [constructor|].
  destruct (UpgradeType_eqb _ _) eqn:Heq; [|exact IH].
  constructor; [|exact IH]. apply Hu, UpgradeType_eqb_eq, Heq.
Qed.

(** One pass of the gold loop: the reduction, or the clamp. *)
Lemma valUp_callback_reduce (e : Upgrade) (g : Q) :
  ~ g - Math_floor (g * upgrade_value e) < 10 ->
  valUp_callback e g = g - Math_floor (g * upgrade_value e).
Proof.
  intros H. unfold valUp_callback.
  destruct (Qlt_le_dec _ _) as [Hlt|_]; [contradiction | reflexivity].
Qed.

Lemma valUp_callback_clamp (e : Upgrade) (g : Q) :
  g - Math_floor (g * upgrade_value e) < 10 -> valUp_callback e g = 10.
Proof.
  intros H. unfold valUp_callback.
  destruct (Qlt_le_dec _ _) as [_|Hle]; [reflexivity|].
  exfalso. exact (Qlt_not_le _ _ H Hle).
Qed.

Lemma valUp_callback_ge_10 (e : Upgrade) (g : Q) : 10 <= valUp_callback e g.
Proof.
  unfold valUp_callback.
  destruct (Qlt_le_dec _ _) as [_|Hle]; [apply Qle_refl | exact Hle].
Qed.

Lemma forEach_valUp_ge_10 (l : list Upgrade) (g : Q) :
  l <> [] \/ 10 <= g -> 10 <= forEach valUp_callback l g.
Proof.
  revert g. induction l as [|e l IH]; intros g [H|H]; simpl.
  - congruence.
  - exact H.
  - apply IH. right. apply valUp_callback_ge_10.
  - apply IH. right. apply valUp_callback_ge_10.
Qed.

(** One pass of the turn loop: the subtraction, or nothing. *)
Lemma turnUp_callback_subtract (e : Upgrade) (t : Q) :
  2 <= t -> turnUp_callback e t = t - upgrade_value e.
Proof.
  intros H. unfold turnUp_callback.
  apply Qle_bool_iff in H. rewrite H. reflexivity.
Qed.

Lemma turnUp_callback_skip (e : Upgrade) (t : Q) :
  t < 2 -> turnUp_callback e t = t.
Proof.
  intros H. unfold turnUp_callback.
  destruct (Qle_bool 2 t) eqn:Hle; [|reflexivity].
  apply Qle_bool_iff in Hle. exfalso. exact (Qlt_not_le _ _ H Hle).
Qed.

Lemma turnUp_callback_ge_1 (e : Upgrade) (t : Q) :
  upgrade_value e <= 1 -> 1 <= t -> 1 <= turnUp_callback e t.
Proof.
  intros Hv Ht. unfold turnUp_callback.
  destruct (Qle_bool 2 t) eqn:Hle; [|exact Ht].
  apply Qle_bool_iff in Hle. lra.
Qed.

Lemma truthy_ge_1 (t : Q) : 1 <= t -> truthy t = true.
Proof.
  intros H. unfold truthy.
  destruct (Qeq_bool t 0) eqn:Heq; [|reflexivity].
  apply Qeq_bool_eq in Heq. lra.
Qed.

(** *** The gold loop *)

(** With the exact product for [times], the pricing over the machine's
    product is the pricing of [Pricing]. *)
Lemma machine_pricing_exact
    (getRangeTurnCost : Q -> Q) (ups : list Upgrade) (d : Q) :
  MachinePricing.getPotentialRouteCost Qmult getRangeTurnCost ups d
  = getPotentialRouteCost getRangeTurnCost ups d.
Proof. reflexivity. Qed.

Lemma machine_valUp_callback_ge_10 (times : Q -> Q -> Q) (e : Upgrade) (g : Q) :
  10 <= MachinePricing.valUp_callback times e g.
Proof.
  unfold MachinePricing.valUp_callback.
  destruct (Qlt_le_dec _ _) as [_|Hle]; [apply Qle_refl | exact Hle].
Qed.

Lemma filter_snoc_keep {A : Type} (f : A -> bool) (l : list A) (x : A) :
  f x = true -> List.filter f (l ++ [x]) = List.filter f l ++ [x].
Proof. intros Hx. rewrite List.filter_app. simpl. rewrite Hx. reflexivity. Qed.

Lemma filter_snoc_drop {A : Type} (f : A -> bool) (l : list A) (x : A) :
  f x = false -> List.filter f (l ++ [x]) = List.filter f l.
Proof. intros Hx. rewrite List.filter_app. simpl. rewrite Hx. apply app_nil_r. Qed.

Lemma isTrack_eqb (u : Upgrade) :
  isTrackValueCheaper u -> UpgradeType_eqb (upgrade_type u) TrackValueCheaper = true.
Proof. intros Hu. apply UpgradeType_eqb_eq, Hu. Qed.

Lemma notTrack_eqb (u : Upgrade) :
  ~ isTrackValueCheaper u -> UpgradeType_eqb (upgrade_type u) TrackValueCheaper = false.
Proof.
  intros Hu. destruct (UpgradeType_eqb _ _) eqn:Heq; [|reflexivity].
  apply UpgradeType_eqb_eq in Heq. contradiction.
Qed.

(** C7.  Whatever the machine's product [times], the price [goldCost] quoted
    by [getPotentialRouteCost] is fixed by the player's upgrade list, read
    in list order.  With no upgrade it is the base price.  One more upgrade
    at the end of the list that is not a TrackValueCheaper one changes
    nothing.  One more TrackValueCheaper upgrade takes off the whole number
    [red] with [red <= goldCost * value < red + 1], the floor of the
    product, unless that would leave less than 10, in which case the price
    becomes exactly 10.  So a player who owns at least one TrackValueCheaper
    upgrade is never quoted less than 10, whatever the distance, the values
    and the number of upgrades; the same holds after every upgrade applied,
    the list up to that upgrade being such a list. *)
Theorem track_upgrades_reduce_then_clamp_at_10
    (times : Q -> Q -> Q) (getRangeTurnCost : Q -> Q) (d : Q) :
  let cost ups := MachinePricing.goldCostFor times getRangeTurnCost ups d in
  cost [] = times d 2 /\
  (forall ups u, ~ isTrackValueCheaper u -> cost (ups ++ [u]) = cost ups) /\
  (forall ups e, isTrackValueCheaper e ->
     exists red : Z,
       inject_Z red <= times (cost ups) (upgrade_value e) < inject_Z red + 1 /\
       (cost ups - inject_Z red < 10 -> cost (ups ++ [e]) = 10) /\
       (~ cost ups - inject_Z red < 10 -> cost (ups ++ [e]) = cost ups - inject_Z red)) /\
  (forall ups, Exists isTrackValueCheaper ups -> 10 <= cost ups).
Proof.
  intros cost. subst cost. unfold MachinePricing.goldCostFor. simpl.
  split; [reflexivity|]. split; [|split].
  - intros ups u Hu. rewrite (filter_snoc_drop _ ups u (notTrack_eqb u Hu)). reflexivity.
  - intros ups e He.
    rewrite (filter_snoc_keep _ ups e (isTrack_eqb e He)), forEach_snoc.
    set (g := forEach (MachinePricing.valUp_callback times) _ (times d 2)).
    exists (Qfloor (times g (upgrade_value e))). split; [|split].
    + split; [apply Qfloor_le|].
      pose proof (Qlt_floor (times g (upgrade_value e))) as Hlt.
      rewrite inject_Z_plus in Hlt. exact Hlt.
    + intros Hlt. unfold MachinePricing.valUp_callback, Math_floor.
      destruct (Qlt_le_dec _ _) as [_|Hle]; [reflexivity|].
      exfalso. exact (Qlt_not_le _ _ Hlt Hle).
    + intros Hge. unfold MachinePricing.valUp_callback, Math_floor.
      destruct (Qlt_le_dec _ _) as [Hlt|_]; [contradiction | reflexivity].
  - intros ups Hown. apply valUp_nonempty in Hown. unfold valUp in Hown.
    destruct (List.filter _ ups) as [|e l] using rev_ind; [congruence|].
    rewrite forEach_snoc. apply machine_valUp_callback_ge_10.
Qed.

Lemma track_upgrades_reduce_then_clamp_at_10_witness :
  let half := mkUpgrade "track-1" TrackValueCheaper (1 # 2) 100 in
  let most := mkUpgrade "track-2" TrackValueCheaper (9 # 10) 100 in
  let turn := mkUpgrade "turn-1" TurnCostCheaper 1 100 in
  let cost ups := MachinePricing.goldCostFor Qmult (fun _ => 2) ups 12 in
  cost ([half] ++ [turn]) = cost [half] /\
  cost ([half; turn] ++ [most]) = 10 /\
  10 <= cost [half; turn; most].
Proof.
  intros half most turn cost.
  destruct (track_upgrades_reduce_then_clamp_at_10 Qmult (fun _ => 2) 12)
    as (_ & Hother & Htrack & Hbound).
  split; [|split].
  - apply Hother. discriminate.
  - destruct (Htrack [half; turn] most eq_refl) as (red & [Hlo Hhi] & Hclamp & _).
    apply Hclamp.
    assert (Hcost : MachinePricing.goldCostFor Qmult (fun _ => 2) [half; turn] 12 = 12)
      by reflexivity.
    rewrite Hcost in *.
    assert (Hred : (10 <= red)%Z).
    { unfold Qlt in Hhi. cbn in Hhi. lia. }
    rewrite Zle_Qle in Hred. change (inject_Z 10) with 10 in Hred. lra.
  - apply Hbound. apply Exists_cons_hd. reflexivity.
Defined.

(** *** The turn loop *)

(** C8, as the code has it.  The TurnCostCheaper upgrades are applied in list
    order.  Each one takes its value off [turnCost] when [turnCost] is at
    least 2 before the subtraction, and is skipped otherwise: the guard is on
    the value before the subtraction, so a subtraction can leave less than 2.
    A loop that ends at 0 returns 1.  When the base turn cost is at least 1
    and no TurnCostCheaper upgrade has a value above 1, [turnCost] is at
    least 1 all through the loop and in the returned cost. *)
Theorem turn_upgrades_subtract_while_at_least_2
    (getRangeTurnCost : Q -> Q) (ups : list Upgrade) (d : Q) :
  (forall pre e post, turnUp ups = pre ++ e :: post ->
     let t := forEach turnUp_callback pre (getRangeTurnCost d) in
     let t' := forEach turnUp_callback (pre ++ [e]) (getRangeTurnCost d) in
     (2 <= t -> t' = t - upgrade_value e) /\ (t < 2 -> t' = t)) /\
  let final := forEach turnUp_callback (turnUp ups) (getRangeTurnCost d) in
  (final == 0 -> turnCost (getPotentialRouteCost getRangeTurnCost ups d) = 1) /\
  (1 <= getRangeTurnCost d ->
   Forall (fun u => isTurnCostCheaper u -> upgrade_value u <= 1) ups ->
   Forall (fun t => 1 <= t) (turnCostTrace getRangeTurnCost ups d) /\
   turnCost (getPotentialRouteCost getRangeTurnCost ups d) = final /\
   1 <= final).
Proof.
  split; [|split].
  - intros pre e post _ t t'. subst t t'. rewrite forEach_snoc. split.
    + apply turnUp_callback_subtract.
    + apply turnUp_callback_skip.
  - intros H0. simpl. unfold truthy.
    rewrite (Qeq_eq_bool _ _ H0). reflexivity.
  - intros Hbase Hvals. apply turnUp_Forall in Hvals.
    assert (Hloop : 1 <= forEach turnUp_callback (turnUp ups) (getRangeTurnCost d)).
    { apply (forEach_preserved turnUp_callback (fun t => 1 <= t)
               (fun u => upgrade_value u <= 1)); auto.
      intros e s. apply turnUp_callback_ge_1. }
    split; [|split].
    + apply (forEachTrace_preserved turnUp_callback (fun t => 1 <= t)
               (fun u => upgrade_value u <= 1)); auto.
      intros e s. apply turnUp_callback_ge_1.
    + simpl. rewrite (truthy_ge_1 _ Hloop). reflexivity.
    + exact Hloop.
Qed.

Lemma turn_upgrades_subtract_while_at_least_2_witness :
  let one := mkUpgrade "turn-1" TurnCostCheaper 1 100 in
  let two := mkUpgrade "turn-2" TurnCostCheaper 2 100 in
  forEach turnUp_callback ([] ++ [one]) 3 = 3 - 1 /\
  turnCost (getPotentialRouteCost (fun _ => 3) [one] 40) = 3 - 1 /\
  turnCost (getPotentialRouteCost (fun _ => 2) [two] 10) = 1.
Proof.
  intros one two.
  pose proof (turn_upgrades_subtract_while_at_least_2 (fun _ => 3) [one] 40)
    as [Hstep [_ Hbound]].
  pose proof (turn_upgrades_subtract_while_at_least_2 (fun _ => 2) [two] 10)
    as [_ [Hzero _]].
  split; [|split].
  - apply (Hstep [] one []); [reflexivity|]. vm_compute. discriminate.
  - apply Hbound.
    + vm_compute. discriminate.
    + repeat constructor. intros _. vm_compute. discriminate.
  - apply Hzero. reflexivity.
Defined.

(** C8, as stated, fails.  With a base turn cost of 2 and one TurnCostCheaper
    upgrade of value 1, [turnCost] is 1 inside the loop, below 2. *)
Lemma turnCost_below_2_inside_loop :
  let ups := [mkUpgrade "turn-1" TurnCostCheaper 1 100] in
  turnCostTrace (fun _ => 2) ups 10 = [2 - 1] /\
  ~ (Forall (fun t => 2 <= t) (turnCostTrace (fun _ => 2) ups 10) /\
     1 <= turnCost (getPotentialRouteCost (fun _ => 2) ups 10)).
Proof.
  intros ups. split; [reflexivity|].
  intros [Hall _]. inversion Hall as [|t l Ht _]; subst.
  revert Ht. apply Qlt_not_le. reflexivity.
Qed.

(** *** Bounds on the returned cost *)

(** C1, as the code has it.  [goldCost] is at least 10 when the distance is
    at least 5 or the player owns a TrackValueCheaper upgrade; [turnCost] is
    at least 1 when the base turn cost is at least 1 and no TurnCostCheaper
    upgrade of the player has a value above 1. *)
Theorem potential_route_cost_lower_bounds
    (getRangeTurnCost : Q -> Q) (ups : list Upgrade) (d : Q) :
  (5 <= d \/ Exists isTrackValueCheaper ups ->
   10 <= goldCost (getPotentialRouteCost getRangeTurnCost ups d)) /\
  (1 <= getRangeTurnCost d ->
   Forall (fun u => isTurnCostCheaper u -> upgrade_value u <= 1) ups ->
   1 <= turnCost (getPotentialRouteCost getRangeTurnCost ups d)).
Proof.
  split.
  - intros H. simpl. apply forEach_valUp_ge_10.
    destruct H as [Hd|Hown]; [right; lra | left; apply valUp_nonempty, Hown].
  - intros Hbase Hvals. simpl.
    assert (Hloop : 1 <= forEach turnUp_callback (turnUp ups) (getRangeTurnCost d)).
    { apply (forEach_preserved turnUp_callback (fun t => 1 <= t)
               (fun u => upgrade_value u <= 1)).
      - intros e s. apply turnUp_callback_ge_1.
      - apply turnUp_Forall, Hvals.
      - exact Hbase. }
    rewrite (truthy_ge_1 _ Hloop). exact Hloop.
Qed.

Lemma potential_route_cost_lower_bounds_witness :
  let ups := [mkUpgrade "turn-1" TurnCostCheaper 1 100;
              mkUpgrade "turn-2" TurnCostCheaper 1 100] in
  10 <= goldCost (getPotentialRouteCost (fun _ => 2) ups 7) /\
  1 <= turnCost (getPotentialRouteCost (fun _ => 2) ups 7).
Proof.
  intros ups.
  pose proof (potential_route_cost_lower_bounds (fun _ => 2) ups 7) as [Hgold Hturn].
  split.
  - apply Hgold. left. vm_compute. discriminate.
  - apply Hturn.
    + vm_compute. discriminate.
    + repeat constructor; intros _; vm_compute; discriminate.
Defined.

(** C1, as stated, fails.  At distance 1 with no upgrades [goldCost] is 2;
    [getRangeTurnCost] plays no part in it. *)
Lemma goldCost_below_10_at_distance_1 :
  0 < 1 /\
  goldCost (getPotentialRouteCost (fun _ => 1) [] 1) = 1 * 2 /\
  ~ (1 <= turnCost (getPotentialRouteCost (fun _ => 1) [] 1) /\
     10 <= goldCost (getPotentialRouteCost (fun _ => 1) [] 1)).
Proof.
  split; [reflexivity|]. split; [reflexivity|].
  intros [_ Hgold]. revert Hgold. apply Qlt_not_le. reflexivity.
Qed.

(** The turn half of C1 fails as well: from a base turn cost of 2, one
    TurnCostCheaper upgrade of value 3 yields a returned [turnCost] of -1. *)
Example turnCost_below_1_after_large_upgrade :
  turnCost (getPotentialRouteCost (fun _ => 2)
              [mkUpgrade "turn-3" TurnCostCheaper 3 100] 10) = 2 - 3.
Proof. reflexivity. Qed.

End PricingFacts.

(** ** The orchestrator *)

Module NardisFacts.
Import NardisClass.

(** *** Running the method monad *)

Lemma bind_normal {A B : Type} (m : M A) (k : A -> M B) (w w' : World) (a : A) :
  m w = (Normal a, w') -> (m ≫= k) w = k a w'.
Proof. intros H. unfold mbind, M_bind. rewrite H. reflexivity. Qed.

Lemma bind_throw {A B : Type} (m : M A) (k : A -> M B) (w w' : World) (e : Exception) :
  m w = (Throw e, w') -> (m ≫= k) w = (Throw e, w').
Proof. intros H. unfold mbind, M_bind. rewrite H. reflexivity. Qed.

Lemma deref_Some (reading : string) (r : ref) (p : Player) (w : World) :
  heap w !! r = Some p -> deref reading (Some r) w = (Normal p, w).
Proof. intros H. unfold deref. simpl. rewrite H. reflexivity. Qed.

Lemma set_heap_same (w : World) : set_heap (heap w) w = w.
Proof. destruct w. reflexivity. Qed.

(** Calling a method that leaves the player as it is leaves the world as it
    is. *)
Lemma invoke_unchanged {A : Type} (reading : string) (r : ref) (p : Player)
    (method : Player -> A * Player) (a : A) (w : World) :
  heap w !! r = Some p -> method p = (a, p) ->
  invoke reading (Some r) method w = (Normal a, w).
Proof.
  intros Hp Hm. unfold invoke.
  rewrite (bind_normal _ _ _ _ _ (deref_Some reading r p w Hp)).
  rewrite Hm. unfold mbind, M_bind, modify, mret, M_ret.
  rewrite (insert_id _ _ _ Hp), set_heap_same. reflexivity.
Qed.

Lemma invoke_Some {A : Type} (reading : string) (r : ref) (p p' : Player)
    (method : Player -> A * Player) (a : A) (w : World) :
  heap w !! r = Some p -> method p = (a, p') ->
  invoke reading (Some r) method w = (Normal a, set_heap (<[r := p']> (heap w)) w).
Proof.
  intros Hp Hm. unfold invoke.
  rewrite (bind_normal _ _ _ _ _ (deref_Some reading r p w Hp)).
  rewrite Hm. reflexivity.
Qed.

(** *** Pricing for the current player *)

Lemma definedSlots_Some {A : Type} (l : list A) : definedSlots (List.map Some l) = Some l.
Proof. induction l as [|a l IH]; simpl; [reflexivity|]. rewrite IH. reflexivity. Qed.

(** For a current player whose upgrade list has no [undefined] slot, the
    method returns the cost computed from that list and changes nothing. *)
Lemma getPotentialRouteCost_run
    (E : Collaborators) (w : World) (current : ref) (p : Player)
    (ups : list Upgrade) (distance : Q) :
  _currentPlayer (this w) = Some current ->
  heap w !! current = Some p ->
  _upgrades p = List.map Some ups ->
  getPotentialRouteCost E distance w
  = (Normal (Pricing.getPotentialRouteCost (getRangeTurnCost E) ups distance), w).
Proof.
  intros Hcur Hp Hups. unfold getPotentialRouteCost.
  rewrite (bind_normal _ _ w w (Some current));
    [|unfold getCurrentPlayer, gets; rewrite Hcur; reflexivity].
  rewrite (bind_normal _ _ _ _ _ (deref_Some _ current p w Hp)).
  rewrite Hups, definedSlots_Some. reflexivity.
Qed.

(** *** Construction *)

(** C10.  A falsy [turn] counts as absent: for a non-empty player list, a
    game built with turn 0, or without a turn, is at turn 1; a game built
    without a current player has the first element of the list, itself, as
    its current player. *)
Theorem constructor_defaults
    (gameData : GameData) (players : list ref) (first : ref)
    (currentPlayer : option ref) (turn : option Z) (w : World) :
  players !! 0%nat = Some first ->
  fst (getCurrentTurn (set_this (new gameData players currentPlayer (Some 0%Z)) w))
    = Normal 1%Z /\
  fst (getCurrentTurn (set_this (new gameData players currentPlayer None) w))
    = Normal 1%Z /\
  fst (getCurrentPlayer (set_this (new gameData players None turn) w))
    = Normal (Some first).
Proof.
  intros Hfirst. repeat split. simpl. rewrite Hfirst. reflexivity.
Qed.

Lemma constructor_defaults_witness :
  fst (getCurrentTurn
         (set_this (new Samples.emptyData [4%nat; 7%nat] (Some 7%nat) (Some 0%Z))
                   Samples.humanAndComputer)) = Normal 1%Z /\
  fst (getCurrentPlayer
         (set_this (new Samples.emptyData [4%nat; 7%nat] None (Some 3%Z))
                   Samples.humanAndComputer)) = Normal (Some 4%nat).
Proof.
  split.
  - exact (proj1 (constructor_defaults Samples.emptyData [4%nat; 7%nat] 4%nat
                    (Some 7%nat) (Some 3%Z) Samples.humanAndComputer eq_refl)).
  - exact (proj2 (proj2 (constructor_defaults Samples.emptyData [4%nat; 7%nat] 4%nat
                    (Some 7%nat) (Some 3%Z) Samples.humanAndComputer eq_refl))).
Defined.

(** *** Restoring a game *)

(** C9.  With no active-game flag in storage, [createFromLocalStorage] throws
    its error at once: no instance is returned, no player object is created
    and storage is as it was. *)
Theorem createFromLocalStorage_needs_flag (E : Collaborators) (w : World) :
  localStorage w !! localKeys E HasActiveGame = None ->
  createFromLocalStorage E w = (Throw (Error "cannot recreate from empty storage"), w).
Proof.
  intros Hflag. unfold createFromLocalStorage.
  rewrite (bind_normal _ _ w w None); [reflexivity|].
  unfold getItem, gets. rewrite Hflag. reflexivity.
Qed.

Lemma createFromLocalStorage_needs_flag_witness :
  createFromLocalStorage (Samples.collaborators Samples.quietTurn) Samples.humanAndComputer
  = (Throw (Error "cannot recreate from empty storage"), Samples.humanAndComputer).
Proof.
  apply createFromLocalStorage_needs_flag. reflexivity.
Defined.

(** *** Leaving the queue *)

Lemma queue_has_false (routeId : string) (q : list (Route * Q)) :
  Forall (fun e => route_id (fst e) <> routeId) q -> queue_has routeId q = false.
Proof.
  induction 1 as [|e q He _ IH]; simpl; [reflexivity|].
  rewrite IH. apply String.eqb_neq in He. rewrite He. reflexivity.
Qed.

(** X12.  When the route is not in the current player's queue,
    [removeRouteFromPlayerQueue] returns false and nothing at all has
    changed: not the queue, not the ledger, nor anything else. *)
Theorem removeRouteFromPlayerQueue_absent_route
    (routeId trainId : string) (w : World) (current : ref) (p : Player) :
  _currentPlayer (this w) = Some current ->
  heap w !! current = Some p ->
  notQueued routeId p ->
  removeRouteFromPlayerQueue routeId trainId w = (Normal false, w).
Proof.
  intros Hcur Hp Habsent. unfold removeRouteFromPlayerQueue.
  rewrite (bind_normal _ _ w w (Some current));
    [|unfold getCurrentPlayer, gets; rewrite Hcur; reflexivity].
  rewrite (bind_normal _ _ w w false); [reflexivity|].
  apply (invoke_unchanged _ _ p); [exact Hp|].
  unfold Player_removeRouteFromQueue.
  rewrite (queue_has_false _ _ Habsent). reflexivity.
Qed.

Lemma removeRouteFromPlayerQueue_absent_route_witness :
  removeRouteFromPlayerQueue "r2" "t1" Samples.withQueuedRoute
  = (Normal false, Samples.withQueuedRoute).
Proof.
  apply (removeRouteFromPlayerQueue_absent_route "r2" "t1" Samples.withQueuedRoute
           0%nat Samples.buyer); [reflexivity | reflexivity |].
  repeat constructor. simpl. discriminate.
Defined.

(** C6 fails on the code.  The route "r1" is queued and paid for, and the
    call names a train that has no expense: the call returns false, although
    the route has left the queue and its Track expense has left the ledger. *)
Theorem removeRouteFromPlayerQueue_false_after_mutation :
  let '(result, w') := removeRouteFromPlayerQueue "r1" "t2" Samples.withQueuedRoute in
  result = Normal false /\
  (_queue <$> heap w' !! 0%nat) = Some [] /\
  (_finance <$> heap w' !! 0%nat)
    = Some (mkFinance [mkFinanceEntry FinanceTrain "t1" 1 50]) /\
  ~ (_queue <$> heap w' !! 0%nat) = (_queue <$> heap Samples.withQueuedRoute !! 0%nat) /\
  ~ (_finance <$> heap w' !! 0%nat) = (_finance <$> heap Samples.withQueuedRoute !! 0%nat).
Proof.
  vm_compute. repeat split; discriminate.
Qed.

(** *** Buying an upgrade *)

Lemma filter_no_match (id : string) (catalogue : list Upgrade) :
  Forall (fun u => upgrade_id u <> id) catalogue ->
  List.filter (fun upgrade => String.eqb (upgrade_id upgrade) id) catalogue = [].
Proof.
  induction 1 as [|u l Hu _ IH]; simpl; [reflexivity|].
  apply String.eqb_neq in Hu. rewrite Hu. exact IH.
Qed.

(** C5 fails on the code.  For an id that no catalogue upgrade has,
    [addUpgradeToPlayer] does not return false: it hands [undefined] to the
    current player's [addUpgrade] and then throws a TypeError on reading the
    [id] of [undefined].  The ledger is not written. *)
Theorem addUpgradeToPlayer_unknown_id_throws
    (id : string) (w : World) (current : ref) (p : Player) :
  _currentPlayer (this w) = Some current ->
  heap w !! current = Some p ->
  Forall (fun u => upgrade_id u <> id) (upgrades (data (this w))) ->
  addUpgradeToPlayer id w
  = (Throw (TypeError "id"),
     set_heap (<[current := Player_addUpgrade None p]> (heap w)) w).
Proof.
  intros Hcur Hp Hnone. unfold addUpgradeToPlayer.
  rewrite (bind_normal _ _ w w (upgrades (data (this w)))); [|reflexivity].
  rewrite (filter_no_match _ _ Hnone). simpl.
  rewrite (bind_normal _ _ w w (Some current));
    [|unfold getCurrentPlayer, gets; rewrite Hcur; reflexivity].
  erewrite bind_normal; [|apply (invoke_Some _ _ p); [exact Hp | reflexivity]].
  erewrite bind_normal; [reflexivity|].
  apply deref_Some. simpl. apply lookup_insert_eq.
Qed.

Lemma addUpgradeToPlayer_unknown_id_throws_witness :
  fst (addUpgradeToPlayer "no-such-upgrade" Samples.humanAndComputer)
  = Throw (TypeError "id").
Proof.
  rewrite (addUpgradeToPlayer_unknown_id_throws "no-such-upgrade"
             Samples.humanAndComputer 0%nat (Samples.freshPlayer "human" Human 1000)).
  - reflexivity.
  - reflexivity.
  - reflexivity.
  - constructor.
Defined.

(** On an id the catalogue has, the upgrade is granted and its cost is
    entered as one Upgrade expense of quantity 1. *)
Example addUpgradeToPlayer_known_id :
  let catalogue := [mkUpgrade "u1" TrackValueCheaper (1 # 10) 300] in
  let w := set_this (new (mkGameData [] catalogue [] []) [0%nat] None None)
                    Samples.withQueuedRoute in
  let '(result, w') := addUpgradeToPlayer "u1" w in
  result = Normal true /\
  (_upgrades <$> heap w' !! 0%nat)
    = Some [Some (mkUpgrade "u1" TrackValueCheaper (1 # 10) 300)] /\
  (_finance <$> heap w' !! 0%nat)
    = Some (mkFinance [mkFinanceEntry FinanceTrack "r1" 1 20;
                       mkFinanceEntry FinanceTrain "t1" 1 50;
                       mkFinanceEntry FinanceUpgrade "u1" 1 300]).
Proof. vm_compute. repeat split. Qed.

(** *** The win check *)

Lemma filterM_none_rich (l : list ref) (w : World) :
  Forall (fun r => exists p, heap w !! r = Some p /\ (gold p <= 10000)%Z) l ->
  filterM (fun player => p ← deref "gold" (Some player); mret (10000 <? gold p)%Z) l w
  = (Normal [], w).
Proof.
  induction 1 as [|r l (p & Hp & Hgold) _ IH]; simpl; [reflexivity|].
  erewrite bind_normal; cycle 1.
  { erewrite bind_normal; [|apply deref_Some, Hp]. reflexivity. }
  erewrite bind_normal; [|exact IH].
  apply Z.ltb_ge in Hgold. rewrite Hgold. reflexivity.
Qed.

(** C4 fails on the code.  When no player has more than 10000 gold,
    [hasAnyPlayerWon] still reports a win: the filtered array is empty but
    truthy, so [hasWon] is true and [player] is [undefined]. *)
Theorem hasAnyPlayerWon_reports_win_without_winner (w : World) :
  Forall (fun r => exists p, heap w !! r = Some p /\ (gold p <= 10000)%Z)
         (players (this w)) ->
  hasAnyPlayerWon w = (Normal {| player := Undefined; hasWon := true |}, w).
Proof.
  intros Hpoor. unfold hasAnyPlayerWon.
  rewrite (bind_normal _ _ w w (players (this w))); [|reflexivity].
  erewrite bind_normal; [|apply filterM_none_rich, Hpoor].
  reflexivity.
Qed.

Lemma hasAnyPlayerWon_reports_win_without_winner_witness :
  hasAnyPlayerWon Samples.humanAndComputer
  = (Normal {| player := Undefined; hasWon := true |}, Samples.humanAndComputer).
Proof.
  apply hasAnyPlayerWon_reports_win_without_winner.
  repeat constructor.
  - exists (Samples.freshPlayer "human" Human 1000). split; [reflexivity|]. discriminate.
  - exists (Samples.freshPlayer "computer" Computer 1000). split; [reflexivity|]. discriminate.
Defined.

Lemma filterM_gold (l : list ref) (w : World) :
  allObjects l w ->
  filterM (fun player => p ← deref "gold" (Some player); mret (10000 <? gold p)%Z) l w
  = (Normal (List.filter (hasWinningGoldAt w) l), w).
Proof.
  induction 1 as [|r l [p Hp] _ IH]; simpl; [reflexivity|].
  erewrite bind_normal; cycle 1.
  { erewrite bind_normal; [|apply deref_Some, Hp]. reflexivity. }
  erewrite bind_normal; [|exact IH].
  assert (Hr : hasWinningGoldAt w r = (10000 <? gold p)%Z)
    by (unfold hasWinningGoldAt; rewrite Hp; reflexivity).
  rewrite Hr. reflexivity.
Qed.

(** X14.  Whatever the players' gold, [hasWon] is true; [player] is the first
    player in list order with more than 10000 gold, or [undefined]. *)
Lemma hasAnyPlayerWon_run (w : World) :
  allObjects (players (this w)) w ->
  hasAnyPlayerWon w
  = (Normal {| player := first_of (List.filter (hasWinningGoldAt w) (players (this w)));
               hasWon := true |}, w).
Proof.
  intros Hobj. unfold hasAnyPlayerWon.
  rewrite (bind_normal _ _ w w (players (this w))); [|reflexivity].
  erewrite bind_normal; [|apply filterM_gold, Hobj].
  reflexivity.
Qed.

Lemma hasAnyPlayerWon_run_witness :
  let w := mkWorld (<[0%nat := Samples.freshPlayer "a" Human 10000]>
                      (<[1%nat := Samples.freshPlayer "b" Computer 10001]>
                         (<[2%nat := Samples.freshPlayer "c" Computer 20000]> ∅)))
                   ∅ (new Samples.emptyData [0%nat; 1%nat; 2%nat] None None) [] in
  hasAnyPlayerWon w = (Normal {| player := WinnerIs 1%nat; hasWon := true |}, w).
Proof.
  intros w. apply (hasAnyPlayerWon_run w).
  repeat constructor; eexists; reflexivity.
Defined.

(** With a winner among the players, the first one in list order is
    reported. *)
Example hasAnyPlayerWon_first_winner :
  let w := mkWorld (<[0%nat := Samples.freshPlayer "a" Human 10000]>
                      (<[1%nat := Samples.freshPlayer "b" Computer 10001]>
                         (<[2%nat := Samples.freshPlayer "c" Computer 20000]> ∅)))
                   ∅ (new Samples.emptyData [0%nat; 1%nat; 2%nat] None None) [] in
  fst (hasAnyPlayerWon w) = Normal {| player := WinnerIs 1%nat; hasWon := true |}.
Proof. reflexivity. Qed.

(** *** Handing the turn to the computer players *)

Section TurnHandOver.

Variable E : Collaborators.

Lemma callback_skip (r : ref) (p : Player) (w : World) :
  heap w !! r = Some p -> takesTurn r p w = false ->
  handleComputerTurn_callback E r w = (Normal tt, w).
Proof.
  intros Hp Hskip. unfold handleComputerTurn_callback.
  rewrite (bind_normal _ _ w w (_currentPlayer (this w))); [|reflexivity].
  rewrite (bind_normal _ _ _ _ _ (deref_Some _ r p w Hp)).
  unfold takesTurn in Hskip. rewrite Hskip. reflexivity.
Qed.

Lemma callback_call (r : ref) (p : Player) (w : World) :
  heap w !! r = Some p -> takesTurn r p w = true ->
  handleComputerTurn_callback E r w
  = (fst (Player_handleTurn E (infoFor p w) p),
     handed r (snd (Player_handleTurn E (infoFor p w) p)) w).
Proof.
  intros Hp Htake. unfold handleComputerTurn_callback.
  rewrite (bind_normal _ _ w w (_currentPlayer (this w))); [|reflexivity].
  rewrite (bind_normal _ _ _ _ _ (deref_Some _ r p w Hp)).
  unfold takesTurn in Htake. rewrite Htake.
  unfold mbind, M_bind, modify, getCurrentTurn, gets, call_handleTurn. simpl.
  rewrite Hp. unfold infoFor.
  destruct (Player_handleTurn E _ p) as [c p']. reflexivity.
Qed.

Lemma allObjects_handed (l : list ref) (r : ref) (p' : Player) (w : World) :
  allObjects l w -> allObjects l (handed r p' w).
Proof.
  unfold allObjects. intros H. eapply Forall_impl; [exact H|].
  intros r' [q Hq]. simpl.
  destruct (decide (r = r')) as [->|Hne].
  - rewrite lookup_insert_eq. eauto.
  - rewrite lookup_insert_ne by exact Hne. eauto.
Qed.

Lemma sameGame_refl (w : World) : sameGame w w.
Proof. repeat split. Qed.

Lemma sameGame_handed (r : ref) (p' : Player) (w w' : World) :
  sameGame (handed r p' w) w' -> sameGame w w'.
Proof. intros H. exact H. Qed.

(** When the loop ends in an exception, a turn routine threw it, the loop
    stopped there, and [_currentPlayer] is the player whose routine threw. *)
Lemma forEachM_callback_throw (l : list ref) (w w' : World) (e : Exception) :
  allObjects l w ->
  forEachM (handleComputerTurn_callback E) l w = (Throw e, w') ->
  sameGame w w' /\
  exists (r : ref) (p : Player) (info : HandleTurnInfo),
    last (handleTurnCalls w') = Some r /\
    _currentPlayer (this w') = Some r /\
    fst (Player_handleTurn E info p) = Throw e.
Proof.
  revert w. induction l as [|r l IH]; intros w Hobj Hrun; simpl in Hrun.
  - discriminate.
  - inversion Hobj as [|r0 l0 [p Hp] Hrest]; subst.
    destruct (takesTurn r p w) eqn:Htake.
    + unfold mbind, M_bind in Hrun.
      rewrite (callback_call r p w Hp Htake) in Hrun.
      destruct (Player_handleTurn E (infoFor p w) p) as [c p'] eqn:Hturn.
      simpl in Hrun. destruct c as [[]|e0].
      * apply IH in Hrun; [|apply allObjects_handed, Hrest].
        destruct Hrun as [Hsame Hthrower]. split; [|exact Hthrower].
        apply (sameGame_handed r p'), Hsame.
      * inversion Hrun; subst. split; [repeat split|].
        exists r, p, (infoFor p w). simpl. repeat split.
        -- apply last_snoc.
        -- rewrite Hturn. reflexivity.
    + unfold mbind, M_bind in Hrun.
      rewrite (callback_skip r p w Hp Htake) in Hrun. apply IH; assumption.
Qed.

End TurnHandOver.

(** C3, as stated, fails.  The human at address 0 is current and the turn
    routine of the computer at address 1 throws: after [endTurn] the current
    player is the computer, not the human. *)
Lemma endTurn_leaves_current_player_swapped :
  let '(result, w') :=
    endTurn (Samples.collaborators Samples.failingTurn) Samples.humanAndComputer in
  result = Throw (Error "computer turn failed") /\
  _currentPlayer (this Samples.humanAndComputer) = Some 0%nat /\
  _currentPlayer (this w') = Some 1%nat /\
  ~ _currentPlayer (this w') = _currentPlayer (this Samples.humanAndComputer).
Proof. vm_compute. repeat split. discriminate. Qed.

(** C2 fails on the code.  Both players are computers and the second one is
    current.  [endTurn] calls the turn routine of the first and then, the
    comparison being against the player just swapped in, that of the second:
    the player that was current when [endTurn] was called gets a pass. *)
Theorem endTurn_hands_turn_to_current_computer :
  let '(result, w') :=
    endTurn (Samples.collaborators Samples.quietTurn) Samples.twoComputers in
  _currentPlayer (this Samples.twoComputers) = Some 1%nat /\
  result = Normal tt /\
  handleTurnCalls w' = [0%nat; 1%nat] /\
  _currentPlayer (this w') = Some 1%nat /\
  _turn (this w') = (_turn (this Samples.twoComputers) + 1)%Z.
Proof. vm_compute. repeat split. Qed.

(** *** The hand-over when a human is current *)

Section QuietHandOver.

Variable E : Collaborators.

(** No turn routine throws. *)
Hypothesis routines_return :
  forall info p, fst (Player_handleTurn E info p) = Normal tt.

Lemma isComputerAt_handed (r r' : ref) (p' : Player) (w : World) :
  r' <> r -> isComputerAt (handed r p' w) r' = isComputerAt w r'.
Proof.
  intros Hne. unfold isComputerAt. simpl.
  rewrite lookup_insert_ne by congruence. reflexivity.
Qed.

Lemma takesTurn_spec (r : ref) (p : Player) (w : World) :
  heap w !! r = Some p ->
  takesTurn r p w
  = negb (bool_decide (_currentPlayer (this w) = Some r)) && isComputerAt w r.
Proof. intros Hp. unfold takesTurn, isComputerAt, Player_equals. rewrite Hp. reflexivity. Qed.

(** The loop over distinct players, started with a current player that is
    not a computer still to come: it ends normally, having called the turn
    routine of each computer once, in list order. *)
Lemma forEachM_callback_normal (l : list ref) (w : World) :
  NoDup l ->
  allObjects l w ->
  (forall c, _currentPlayer (this w) = Some c -> c ∈ l -> isComputerAt w c = false) ->
  exists w',
    forEachM (handleComputerTurn_callback E) l w = (Normal tt, w') /\
    sameGame w w' /\
    handleTurnCalls w' = handleTurnCalls w ++ List.filter (isComputerAt w) l /\
    (forall r, is_Some (heap w !! r) -> is_Some (heap w' !! r)) /\
    (forall r, r ∉ l -> heap w' !! r = heap w !! r).
Proof.
  revert w. induction l as [|r l IH]; intros w Hnodup Hobj Hcur; simpl.
  - exists w. repeat split; auto. rewrite app_nil_r. reflexivity.
  - apply NoDup_cons in Hnodup as [Hfresh Hnodup].
    inversion Hobj as [|r0 l0 [p Hp] Hrest]; subst.
    destruct (takesTurn r p w) eqn:Htake.
    + pose proof Htake as Hcomp. rewrite (takesTurn_spec r p w Hp) in Hcomp.
      apply andb_prop in Hcomp as [_ Hcomp].
      pose proof (callback_call E r p w Hp Htake) as Hcall.
      rewrite routines_return in Hcall.
      set (p' := snd (Player_handleTurn E (infoFor p w) p)) in Hcall.
      destruct (IH (handed r p' w) Hnodup (allObjects_handed l r p' w Hrest))
        as (w' & Hrun & Hsame & Hcalls & Hdom & Hframe).
      { intros c Hc Hin. simpl in Hc. inversion Hc; subst. contradiction. }
      exists w'. split; [|split; [|split; [|split]]].
      * unfold mbind, M_bind. rewrite Hcall. exact Hrun.
      * exact Hsame.
      * rewrite Hcalls, Hcomp. simpl. rewrite <- app_assoc. simpl. f_equal. f_equal.
        apply List.filter_ext_in. intros r' Hin. apply isComputerAt_handed.
        intros ->. apply Hfresh, list_elem_of_In, Hin.
      * intros r' Hr'. apply Hdom. simpl.
        destruct (decide (r = r')) as [->|Hne].
        -- rewrite lookup_insert_eq. eauto.
        -- rewrite lookup_insert_ne by exact Hne. exact Hr'.
      * intros r' Hr'. apply not_elem_of_cons in Hr' as [Hne Hr'].
        rewrite (Hframe r' Hr'). simpl. apply lookup_insert_ne. congruence.
    + assert (Hnot : isComputerAt w r = false).
      { rewrite (takesTurn_spec r p w Hp) in Htake.
        apply andb_false_iff in Htake as [Heq|Hc]; [|exact Hc].
        apply negb_false_iff, bool_decide_eq_true in Heq.
        apply (Hcur r Heq). left. }
      destruct (IH w Hnodup Hrest) as (w' & Hrun & Hsame & Hcalls & Hdom & Hframe).
      { intros c Hc Hin. apply (Hcur c Hc). right. exact Hin. }
      exists w'. split; [|split; [|split; [|split]]].
      * unfold mbind, M_bind. rewrite (callback_skip E r p w Hp Htake). exact Hrun.
      * exact Hsame.
      * rewrite Hcalls, Hnot. reflexivity.
      * exact Hdom.
      * intros r' Hr'. apply not_elem_of_cons in Hr' as [_ Hr']. apply Hframe, Hr'.
Qed.

Lemma mapM_deref (reading : string) (l : list ref) (w : World) :
  allObjects l w ->
  mapM (fun e => deref reading (Some e)) l w
  = (Normal (omap (fun r => heap w !! r) l), w).
Proof.
  induction 1 as [|r l [p Hp] _ IH]; simpl; [reflexivity|].
  rewrite (bind_normal _ _ _ _ _ (deref_Some reading r p w Hp)).
  rewrite (bind_normal _ _ _ _ _ IH). rewrite Hp. reflexivity.
Qed.

Lemma set_localStorage_twice (s s' : gmap string string) (w : World) :
  set_localStorage s (set_localStorage s' w) = set_localStorage s w.
Proof. reflexivity. Qed.

(** [saveGame] writes storage and nothing else. *)
Lemma saveGame_run (w : World) (current : ref) :
  allObjects (players (this w)) w ->
  _currentPlayer (this w) = Some current ->
  is_Some (heap w !! current) ->
  exists storage, saveGame E w = (Normal tt, set_localStorage storage w).
Proof.
  intros Hobj Hcur [p Hp]. unfold saveGame, setItem.
  do 7 (erewrite bind_normal; [|reflexivity]).
  erewrite bind_normal; [|apply mapM_deref; exact Hobj].
  do 2 (erewrite bind_normal; [|reflexivity]).
  erewrite bind_normal; [|simpl; rewrite Hcur; apply deref_Some; exact Hp].
  do 2 (erewrite bind_normal; [|reflexivity]).
  unfold modify. rewrite !set_localStorage_twice. eexists. reflexivity.
Qed.

(** X15.  When the current player is not a computer and the players are distinct,
    [endTurn] does what is expected of it: each computer gets one pass, in
    list order, the current player gets none, the current player is current
    again afterwards and the turn counter has advanced by 1. *)
Theorem endTurn_with_human_current (w : World) (current : ref) :
  NoDup (players (this w)) ->
  allObjects (players (this w)) w ->
  _currentPlayer (this w) = Some current ->
  is_Some (heap w !! current) ->
  isComputerAt w current = false ->
  exists (w' : World) (calls : list ref),
    endTurn E w = (Normal tt, w') /\
    handleTurnCalls w' = handleTurnCalls w ++ calls /\
    calls = List.filter (isComputerAt w) (players (this w)) /\
    NoDup calls /\
    (current ∉ calls) /\
    _currentPlayer (this w') = Some current /\
    _turn (this w') = (_turn (this w) + 1)%Z.
Proof.
  intros Hnodup Hobj Hcur Hheap Hhuman.
  destruct (forEachM_callback_normal (players (this w)) w Hnodup Hobj)
    as (w1 & Hloop & (Hturn & Hstore & Hplayers & Hdata) & Hcalls & Hdom & _).
  { intros c Hc _. rewrite Hcur in Hc. inversion Hc; subst. exact Hhuman. }
  set (w2 := set_this (set_turn (_turn (this w1) + 1)
                         (set_currentPlayer (Some current) (this w1))) w1).
  destruct (saveGame_run w2 current) as [storage Hsave].
  { unfold allObjects. simpl. rewrite Hplayers.
    eapply Forall_impl; [exact Hobj|]. intros r. apply Hdom. }
  { reflexivity. }
  { apply Hdom, Hheap. }
  exists (set_localStorage storage w2), (List.filter (isComputerAt w) (players (this w))).
  split; [|split; [|split; [|split; [|split; [|split]]]]].
  - unfold endTurn, handleComputerTurn.
    erewrite bind_normal; cycle 1.
    { do 2 (erewrite bind_normal; [|reflexivity]).
      erewrite bind_normal; [|exact Hloop]. rewrite Hcur. reflexivity. }
    erewrite bind_normal; [|reflexivity]. exact Hsave.
  - exact Hcalls.
  - reflexivity.
  - apply NoDup_ListNoDup, List.NoDup_filter, NoDup_ListNoDup, Hnodup.
  - rewrite list_elem_of_In, List.filter_In. intros [_ Hc]. congruence.
  - reflexivity.
  - simpl. rewrite Hturn. reflexivity.
Qed.

End QuietHandOver.

Lemma endTurn_with_human_current_witness :
  exists w',
    endTurn (Samples.collaborators Samples.quietTurn) Samples.humanAndComputer
    = (Normal tt, w') /\
    handleTurnCalls w' = [1%nat] /\
    _currentPlayer (this w') = Some 0%nat /\
    _turn (this w') = 2%Z.
Proof.
  destruct (endTurn_with_human_current (Samples.collaborators Samples.quietTurn)
              (fun _ _ => eq_refl) Samples.humanAndComputer 0%nat)
    as (w' & calls & Hrun & Hcalls & -> & _ & _ & Hcur & Hturn).
  - repeat constructor; rewrite ?list_elem_of_In; simpl; intuition discriminate.
  - repeat constructor; eexists; reflexivity.
  - reflexivity.
  - eexists; reflexivity.
  - reflexivity.
  - exists w'. repeat split; assumption.
Defined.

(** *** A turn routine that throws *)

Lemma forEachM_app {A : Type} (callback : A -> M unit) (l1 l2 : list A) (w : World) :
  forEachM callback (l1 ++ l2) w
  = match forEachM callback l1 w with
    | (Normal _, w1) => forEachM callback l2 w1
    | (Throw e, w1) => (Throw e, w1)
    end.
Proof.
  revert w. induction l1 as [|x l1 IH]; intros w; simpl; [reflexivity|].
  unfold mbind, M_bind. destruct (callback x w) as [[[]|e] w1]; [apply IH | reflexivity].
Qed.

Section ThrowingHandOver.

Variable E : Collaborators.

(** The loop over distinct players whose computers' routines return: it ends
    normally, having called each computer once, in list order; objects off
    the list are as before, and the current player is the one it was or a
    player of the list. *)
Lemma forEachM_callback_returning (l : list ref) (w : World) :
  NoDup l ->
  allObjects l w ->
  (forall c, _currentPlayer (this w) = Some c -> c ∈ l -> isComputerAt w c = false) ->
  (forall r p, r ∈ l -> heap w !! r = Some p -> isComputerAt w r = true ->
               forall info, fst (Player_handleTurn E info p) = Normal tt) ->
  exists w',
    forEachM (handleComputerTurn_callback E) l w = (Normal tt, w') /\
    sameGame w w' /\
    handleTurnCalls w' = handleTurnCalls w ++ List.filter (isComputerAt w) l /\
    (forall r, r ∉ l -> heap w' !! r = heap w !! r) /\
    (_currentPlayer (this w') = _currentPlayer (this w) \/
     exists r, r ∈ l /\ _currentPlayer (this w') = Some r).
Proof.
  revert w. induction l as [|r l IH]; intros w Hnodup Hobj Hcur Hquiet; simpl.
  - exists w. repeat split; auto. rewrite app_nil_r. reflexivity.
  - apply NoDup_cons in Hnodup as [Hfresh Hnodup].
    inversion Hobj as [|r0 l0 [p Hp] Hrest]; subst.
    destruct (takesTurn r p w) eqn:Htake.
    + pose proof Htake as Hcomp. rewrite (takesTurn_spec r p w Hp) in Hcomp.
      apply andb_prop in Hcomp as [_ Hcomp].
      pose proof (callback_call E r p w Hp Htake) as Hcall.
      rewrite (Hquiet r p) in Hcall; [|left|exact Hp|exact Hcomp].
      set (p' := snd (Player_handleTurn E (infoFor p w) p)) in Hcall.
      destruct (IH (handed r p' w) Hnodup (allObjects_handed l r p' w Hrest))
        as (w' & Hrun & Hsame & Hcalls & Hframe & Hcur').
      { intros c Hc Hin. simpl in Hc. inversion Hc; subst. contradiction. }
      { intros r' q Hin Hq Hc info.
        assert (Hne : r' <> r) by (intros ->; contradiction).
        simpl in Hq. rewrite lookup_insert_ne in Hq by congruence.
        rewrite (isComputerAt_handed r r' p' w Hne) in Hc.
        apply (Hquiet r' q); [right; exact Hin | exact Hq | exact Hc]. }
      exists w'. split; [|split; [|split; [|split]]].
      * unfold mbind, M_bind. rewrite Hcall. exact Hrun.
      * exact Hsame.
      * rewrite Hcalls, Hcomp. simpl. rewrite <- app_assoc. simpl. f_equal. f_equal.
        apply List.filter_ext_in. intros r' Hin. apply isComputerAt_handed.
        intros ->. apply Hfresh, list_elem_of_In, Hin.
      * intros r' Hr'. apply not_elem_of_cons in Hr' as [Hne Hr'].
        rewrite (Hframe r' Hr'). simpl. apply lookup_insert_ne. congruence.
      * right. destruct Hcur' as [Hsame'|(r' & Hin & Hr')].
        -- exists r. split; [left|]. rewrite Hsame'. reflexivity.
        -- exists r'. split; [right; exact Hin | exact Hr'].
    + assert (Hnot : isComputerAt w r = false).
      { rewrite (takesTurn_spec r p w Hp) in Htake.
        apply andb_false_iff in Htake as [Heq|Hc]; [|exact Hc].
        apply negb_false_iff, bool_decide_eq_true in Heq.
        apply (Hcur r Heq). left. }
      destruct (IH w Hnodup Hrest) as (w' & Hrun & Hsame & Hcalls & Hframe & Hcur').
      { intros c Hc Hin. apply (Hcur c Hc). right. exact Hin. }
      { intros r' q Hin. apply Hquiet. right. exact Hin. }
      exists w'. split; [|split; [|split; [|split]]].
      * unfold mbind, M_bind. rewrite (callback_skip E r p w Hp Htake). exact Hrun.
      * exact Hsame.
      * rewrite Hcalls, Hnot. reflexivity.
      * intros r' Hr'. apply not_elem_of_cons in Hr' as [_ Hr']. apply Hframe, Hr'.
      * destruct Hcur' as [Hsame'|(r' & Hin & Hr')]; [left; exact Hsame'|].
        right. exists r'. split; [right; exact Hin | exact Hr'].
Qed.

(** C3, as the code has it.  The players up to [r] are distinct objects, the
    current player is not a computer among them, the turn routines of the
    computers before [r] return, and the routine of the computer [r] throws
    [e] on the call [endTurn] makes.  Then [endTurn] throws [e] to its
    caller: the error is not swallowed.  The computers before [r] and [r]
    have been called, in list order, and no player after [r]; the turn
    counter is not advanced and nothing is saved; and [_currentPlayer] is
    not restored: it is [r], not the player that was current. *)
Theorem endTurn_handler_error_propagates
    (w : World) (before after : list ref) (r : ref) (p : Player) (e : Exception) :
  players (this w) = before ++ r :: after ->
  NoDup (before ++ [r]) ->
  allObjects before w ->
  heap w !! r = Some p ->
  playerType p = Computer ->
  (forall c, _currentPlayer (this w) = Some c -> c ∈ before ++ [r] ->
             isComputerAt w c = false) ->
  (forall r' p', r' ∈ before -> heap w !! r' = Some p' -> isComputerAt w r' = true ->
                 forall info, fst (Player_handleTurn E info p') = Normal tt) ->
  fst (Player_handleTurn E (infoFor p w) p) = Throw e ->
  exists w',
    endTurn E w = (Throw e, w') /\
    _currentPlayer (this w') = Some r /\
    _currentPlayer (this w') <> _currentPlayer (this w) /\
    handleTurnCalls w'
      = handleTurnCalls w ++ List.filter (isComputerAt w) before ++ [r] /\
    _turn (this w') = _turn (this w) /\
    localStorage w' = localStorage w.
Proof.
  intros Hplayers Hnodup Hobj Hp Hcomputer Hcur Hquiet Hthrow.
  apply NoDup_app in Hnodup as (Hnodup & Hapart & _).
  assert (Hr : r ∉ before) by (intros Hin; apply (Hapart r Hin); left).
  assert (Hcomp : isComputerAt w r = true)
    by (unfold isComputerAt; rewrite Hp, Hcomputer; reflexivity).
  destruct (forEachM_callback_returning before w Hnodup Hobj)
    as (w1 & Hloop & (Hturn & Hstore & Hpl & Hdata) & Hcalls & Hframe & Hcur1).
  { intros c Hc Hin. apply (Hcur c Hc). apply elem_of_app. left. exact Hin. }
  { exact Hquiet. }
  assert (Hp1 : heap w1 !! r = Some p) by (rewrite (Hframe r Hr); exact Hp).
  assert (Hne : _currentPlayer (this w) <> Some r).
  { intros Hc. specialize (Hcur r Hc). rewrite Hcur in Hcomp; [discriminate|].
    apply elem_of_app. right. left. }
  assert (Htake : takesTurn r p w1 = true).
  { unfold takesTurn, Player_equals. rewrite Hcomputer. simpl.
    rewrite andb_true_r. apply negb_true_iff, bool_decide_eq_false.
    destruct Hcur1 as [Hsame|(r' & Hin & Hr')].
    - rewrite Hsame. exact Hne.
    - rewrite Hr'. intros Heq. inversion Heq; subst. contradiction. }
  assert (Hinfo : infoFor p w1 = infoFor p w)
    by (unfold infoFor; rewrite Hturn, Hdata; reflexivity).
  pose proof (callback_call E r p w1 Hp1 Htake) as Hcall.
  rewrite Hinfo, Hthrow in Hcall.
  set (p' := snd (Player_handleTurn E (infoFor p w) p)) in Hcall.
  exists (handed r p' w1). split; [|split; [|split; [|split; [|split]]]].
  - unfold endTurn. apply bind_throw. unfold handleComputerTurn.
    erewrite bind_normal; [|reflexivity].
    erewrite bind_normal; [|reflexivity].
    apply bind_throw. rewrite Hplayers, forEachM_app, Hloop.
    simpl. unfold mbind, M_bind. rewrite Hcall. reflexivity.
  - reflexivity.
  - simpl. intros Heq. apply Hne. symmetry. exact Heq.
  - simpl. rewrite Hcalls, <- app_assoc. reflexivity.
  - exact Hturn.
  - exact Hstore.
Qed.

End ThrowingHandOver.

Lemma endTurn_handler_error_propagates_witness :
  exists w',
    endTurn (Samples.collaborators Samples.failingTurn) Samples.humanAndComputer
      = (Throw (Error "computer turn failed"), w') /\
    _currentPlayer (this w') = Some 1%nat /\
    handleTurnCalls w' = [1%nat] /\
    _turn (this w') = 1%Z.
Proof.
  destruct (endTurn_handler_error_propagates
              (Samples.collaborators Samples.failingTurn) Samples.humanAndComputer
              [0%nat] [] 1%nat (Samples.freshPlayer "computer" Computer 1000)
              (Error "computer turn failed"))
    as (w' & Hrun & Hcur & _ & Hcalls & Hturn & _).
  - reflexivity.
  - repeat constructor; rewrite ?list_elem_of_In; simpl; intuition discriminate.
  - repeat constructor. eexists. reflexivity.
  - reflexivity.
  - reflexivity.
  - intros c Hc _. inversion Hc; subst. reflexivity.
  - intros r' p' Hin Hp' Hc. apply list_elem_of_singleton in Hin. subst r'.
    discriminate Hc.
  - reflexivity.
  - exists w'. repeat split; assumption.
Defined.

End NardisFacts.

(** ** More on route pricing *)

Module RoutePricingFacts.
Import Pricing.

Lemma Math_floor_nonneg (x : Q) : 0 <= x -> 0 <= Math_floor x.
Proof.
  intros Hx. unfold Math_floor.
  change 0 with (inject_Z 0). rewrite <- Zle_Qle.
  rewrite <- (Qfloor_Z 0). apply Qfloor_resp_le. exact Hx.
Qed.

Lemma Math_floor_le (x : Q) : Math_floor x <= x.
Proof. apply Qfloor_le. Qed.

Lemma valUp_app (l1 l2 : list Upgrade) : valUp (l1 ++ l2) = valUp l1 ++ valUp l2.
Proof. apply List.filter_app. Qed.

Lemma turnUp_app (l1 l2 : list Upgrade) : turnUp (l1 ++ l2) = turnUp l1 ++ turnUp l2.
Proof. apply List.filter_app. Qed.

Lemma valUp_skip (u : Upgrade) (l : list Upgrade) :
  ~ isTrackValueCheaper u -> valUp (u :: l) = valUp l.
Proof.
  intros Hu. unfold valUp. simpl.
  destruct (UpgradeType_eqb _ _) eqn:Heq; [|reflexivity].
  apply PricingFacts.UpgradeType_eqb_eq in Heq. contradiction.
Qed.

Lemma turnUp_skip (u : Upgrade) (l : list Upgrade) :
  ~ isTurnCostCheaper u -> turnUp (u :: l) = turnUp l.
Proof.
  intros Hu. unfold turnUp. simpl.
  destruct (UpgradeType_eqb _ _) eqn:Heq; [|reflexivity].
  apply PricingFacts.UpgradeType_eqb_eq in Heq. contradiction.
Qed.

Lemma valUp_Forall (R : Upgrade -> Prop) (ups : list Upgrade) :
  Forall (fun u => isTrackValueCheaper u -> R u) ups -> Forall R (valUp ups).
Proof.
  unfold valUp. induction 1 as [|u l Hu _ IH]; simpl; [constructor|].
  destruct (UpgradeType_eqb _ _) eqn:Heq; [|exact IH].
  constructor; [|exact IH]. apply Hu, PricingFacts.UpgradeType_eqb_eq, Heq.
Qed.

(** X1.  The returned [turnCost] is never 0, whatever the distance, the base turn
    cost and the upgrades. *)
Theorem turnCost_never_zero (getRangeTurnCost : Q -> Q) (ups : list Upgrade) (d : Q) :
  ~ turnCost (getPotentialRouteCost getRangeTurnCost ups d) == 0.
Proof.
  simpl. unfold truthy.
  destruct (Qeq_bool _ 0) eqn:Heq; simpl.
  - intros H. discriminate H.
  - apply Qeq_bool_neq, Heq.
Qed.

(** X2.  An upgrade that is not a TrackValueCheaper one leaves [goldCost] as it
    is, one that is not a TurnCostCheaper one leaves [turnCost] as it is:
    owning or not owning it, anywhere in the list, makes no difference. *)
Theorem other_upgrades_do_not_change_the_cost
    (getRangeTurnCost : Q -> Q) (before after : list Upgrade) (u : Upgrade) (d : Q) :
  (~ isTrackValueCheaper u ->
   goldCost (getPotentialRouteCost getRangeTurnCost (before ++ u :: after) d)
   = goldCost (getPotentialRouteCost getRangeTurnCost (before ++ after) d)) /\
  (~ isTurnCostCheaper u ->
   turnCost (getPotentialRouteCost getRangeTurnCost (before ++ u :: after) d)
   = turnCost (getPotentialRouteCost getRangeTurnCost (before ++ after) d)).
Proof.
  split; intros Hu; simpl.
  - rewrite !valUp_app, (valUp_skip u after Hu). reflexivity.
  - rewrite !turnUp_app, (turnUp_skip u after Hu). reflexivity.
Qed.

Lemma other_upgrades_do_not_change_the_cost_witness :
  let track := mkUpgrade "track-1" TrackValueCheaper (1 # 2) 100 in
  let train := mkUpgrade "train-1" TrainValueCheaper (1 # 2) 100 in
  getPotentialRouteCost (fun _ => 3) ([track] ++ train :: [track]) 50
  = getPotentialRouteCost (fun _ => 3) ([track] ++ [track]) 50.
Proof.
  intros track train.
  destruct (other_upgrades_do_not_change_the_cost (fun _ => 3) [track] [track] train 50)
    as [Hgold Hturn].
  assert (Hg := Hgold ltac:(discriminate)).
  assert (Ht := Hturn ltac:(discriminate)).
  destruct (getPotentialRouteCost _ ([track] ++ train :: [track]) 50),
           (getPotentialRouteCost _ ([track] ++ [track]) 50).
  simpl in Hg, Ht. rewrite Hg, Ht. reflexivity.
Defined.

(** One discount on a cost of at least 10 stays between 10 and that cost. *)
Lemma valUp_callback_discount (e : Upgrade) (g : Q) :
  0 <= upgrade_value e -> 10 <= g -> 10 <= valUp_callback e g <= g.
Proof.
  intros Hv Hg. split; [apply PricingFacts.valUp_callback_ge_10|].
  unfold valUp_callback. destruct (Qlt_le_dec _ _) as [_|_]; [exact Hg|].
  assert (0 <= Math_floor (g * upgrade_value e)).
  { apply Math_floor_nonneg. apply Qmult_le_0_compat; [lra | exact Hv]. }
  lra.
Qed.

(** X3.  From a distance of 5 on, with TrackValueCheaper values that are not
    negative, the upgrades never raise the price: [goldCost] lies between 10
    and the base price [2 * d]. *)
Theorem goldCost_between_10_and_base
    (getRangeTurnCost : Q -> Q) (ups : list Upgrade) (d : Q) :
  5 <= d ->
  Forall (fun u => isTrackValueCheaper u -> 0 <= upgrade_value u) ups ->
  10 <= goldCost (getPotentialRouteCost getRangeTurnCost ups d) <= d * 2.
Proof.
  intros Hd Hvals. simpl.
  apply (forEach_preserved valUp_callback (fun g => 10 <= g <= d * 2)
           (fun u => 0 <= upgrade_value u)).
  - intros e g Hv [Hlo Hhi].
    destruct (valUp_callback_discount e g Hv Hlo) as [Hlo' Hhi']. lra.
  - apply valUp_Forall, Hvals.
  - lra.
Qed.

Lemma goldCost_between_10_and_base_witness :
  let ups := [mkUpgrade "track-1" TrackValueCheaper (1 # 10) 100;
              mkUpgrade "track-2" TrackValueCheaper (3 # 4) 100] in
  10 <= goldCost (getPotentialRouteCost (fun _ => 2) ups 30) <= 30 * 2.
Proof.
  intros ups. apply goldCost_between_10_and_base.
  - vm_compute. discriminate.
  - repeat constructor; intros _; vm_compute; discriminate.
Defined.

(** From the clamp on, discounts between 0 and 1 keep [goldCost] at 10. *)
Lemma forEach_valUp_stays_10 (l : list Upgrade) :
  Forall (fun u => 0 <= upgrade_value u) l ->
  forEach valUp_callback l 10 == 10.
Proof.
  intros Hl.
  apply (forEach_preserved valUp_callback (fun g => g == 10)
           (fun u => 0 <= upgrade_value u)); [|exact Hl|reflexivity].
  intros e g Hv Hg.
  assert (Hg' : 10 <= g) by (rewrite Hg; apply Qle_refl).
  destruct (valUp_callback_discount e g Hv Hg'). rewrite Hg in *. lra.
Qed.

(** X4.  Below a distance of 5 a TrackValueCheaper upgrade makes the route dearer:
    with values between 0 and 1, a player who owns one pays exactly 10, more
    than the base price [2 * d] paid without it. *)
Theorem track_upgrade_raises_short_route_price
    (getRangeTurnCost : Q -> Q) (ups : list Upgrade) (d : Q) :
  0 <= d -> d < 5 ->
  Exists isTrackValueCheaper ups ->
  Forall (fun u => isTrackValueCheaper u -> 0 <= upgrade_value u <= 1) ups ->
  goldCost (getPotentialRouteCost getRangeTurnCost ups d) == 10 /\
  goldCost (getPotentialRouteCost getRangeTurnCost [] d) == d * 2 /\
  goldCost (getPotentialRouteCost getRangeTurnCost [] d)
    < goldCost (getPotentialRouteCost getRangeTurnCost ups d).
Proof.
  intros Hd0 Hd5 Hown Hvals.
  assert (Hten : goldCost (getPotentialRouteCost getRangeTurnCost ups d) == 10).
  { simpl. apply PricingFacts.valUp_nonempty in Hown.
    apply valUp_Forall in Hvals.
    destruct (valUp ups) as [|e l]; [congruence|]. clear Hown.
    inversion Hvals as [|e0 l0 [Hv0 Hv1] Hrest]; subst. simpl.
    assert (Hfirst : valUp_callback e (d * 2) = 10).
    { apply PricingFacts.valUp_callback_clamp.
      assert (0 <= Math_floor (d * 2 * upgrade_value e)).
      { apply Math_floor_nonneg. apply Qmult_le_0_compat; lra. }
      lra. }
    rewrite Hfirst. apply forEach_valUp_stays_10.
    eapply Forall_impl; [exact Hrest|]. intros u [Hu _]. exact Hu. }
  split; [exact Hten|]. split; [reflexivity|].
  rewrite Hten. simpl. lra.
Qed.

Lemma track_upgrade_raises_short_route_price_witness :
  let ups := [mkUpgrade "track-1" TrackValueCheaper (1 # 10) 100] in
  goldCost (getPotentialRouteCost (fun _ => 1) ups 2) == 10 /\
  goldCost (getPotentialRouteCost (fun _ => 1) [] 2)
    < goldCost (getPotentialRouteCost (fun _ => 1) ups 2).
Proof.
  intros ups.
  destruct (track_upgrade_raises_short_route_price (fun _ => 1) ups 2)
    as (Hten & _ & Hlt).
  - vm_compute. discriminate.
  - reflexivity.
  - apply Exists_cons_hd. reflexivity.
  - repeat constructor; vm_compute; discriminate.
  - split; assumption.
Defined.

(** A whole number less a floor is a whole number. *)
Lemma whole_minus_floor (g x : Q) :
  (exists a : Z, g == inject_Z a) -> exists a : Z, g - Math_floor x == inject_Z a.
Proof.
  intros [a Ha]. exists (a - Qfloor x)%Z. unfold Math_floor.
  rewrite Ha. unfold Zminus. rewrite inject_Z_plus, inject_Z_opp. reflexivity.
Qed.

(** X5.  For a whole-number distance the returned [goldCost] is a whole number,
    whatever the values of the upgrades. *)
Theorem goldCost_whole_for_whole_distance
    (getRangeTurnCost : Q -> Q) (ups : list Upgrade) (d : Q) (n : Z) :
  d == inject_Z n ->
  exists g : Z, goldCost (getPotentialRouteCost getRangeTurnCost ups d) == inject_Z g.
Proof.
  intros Hd. simpl.
  apply (forEach_preserved valUp_callback (fun g => exists a : Z, g == inject_Z a)
           (fun _ => True)).
  - intros e g _ Hg. unfold valUp_callback.
    destruct (Qlt_le_dec _ _) as [_|_].
    + exists 10%Z. reflexivity.
    + apply whole_minus_floor, Hg.
  - apply Forall_forall. intros; exact I.
  - exists (n * 2)%Z. rewrite Hd, inject_Z_mult. reflexivity.
Qed.

Lemma goldCost_whole_for_whole_distance_witness :
  exists g : Z,
    goldCost (getPotentialRouteCost (fun _ => 2)
                [mkUpgrade "track-1" TrackValueCheaper (1 # 3) 100] 40)
    == inject_Z g.
Proof.
  apply (goldCost_whole_for_whole_distance _ _ 40 40%Z). reflexivity.
Defined.

(** The turn loop on a whole base of at least 1, with upgrades of value 1:
    each one takes a turn off until 1 is reached. *)
Lemma forEach_turnUp_unit (l : list Upgrade) (t : Q) (m : Z) :
  Forall (fun u => upgrade_value u == 1) l ->
  t == inject_Z m -> (1 <= m)%Z ->
  forEach turnUp_callback l t == inject_Z (Z.max 1 (m - Z.of_nat (length l))).
Proof.
  intros Hl. revert t m. induction Hl as [|e l He _ IH]; intros t m Ht Hm; simpl forEach.
  - rewrite Ht. simpl length. replace (Z.max 1 (m - Z.of_nat 0)) with m by lia. reflexivity.
  - unfold turnUp_callback at 2.
    destruct (Qle_bool 2 t) eqn:Hle.
    + apply Qle_bool_iff in Hle. rewrite Ht in Hle.
      change 2 with (inject_Z 2) in Hle. rewrite <- Zle_Qle in Hle.
      rewrite (IH (t - upgrade_value e) (m - 1)%Z).
      * replace (m - 1 - Z.of_nat (length l))%Z
          with (m - Z.of_nat (length (e :: l)))%Z by (simpl length; lia).
        reflexivity.
      * rewrite Ht, He. unfold Zminus. rewrite inject_Z_plus, inject_Z_opp. reflexivity.
      * lia.
    + assert (Hm1 : m = 1%Z).
      { destruct (Z_lt_le_dec m 2) as [Hlt|Hge]; [lia|].
        assert (Hq : 2 <= t).
        { rewrite Ht. change 2 with (inject_Z 2). rewrite <- Zle_Qle. exact Hge. }
        apply Qle_bool_iff in Hq. congruence. }
      rewrite (IH t m Ht Hm). subst m.
      replace (Z.max 1 (1 - Z.of_nat (length l))) with 1%Z by lia.
      replace (Z.max 1 (1 - Z.of_nat (length (e :: l)))) with 1%Z by lia.
      reflexivity.
Qed.

(** X6.  With a whole base turn cost [n] of at least 1 and [k] TurnCostCheaper
    upgrades, each of value 1, the returned [turnCost] is [n - k], but never
    less than 1. *)
Theorem turnCost_with_unit_upgrades
    (getRangeTurnCost : Q -> Q) (ups : list Upgrade) (d : Q) (n : Z) :
  getRangeTurnCost d == inject_Z n -> (1 <= n)%Z ->
  Forall (fun u => isTurnCostCheaper u -> upgrade_value u == 1) ups ->
  turnCost (getPotentialRouteCost getRangeTurnCost ups d)
  == inject_Z (Z.max 1 (n - Z.of_nat (length (turnUp ups)))).
Proof.
  intros Hbase Hn Hvals. simpl.
  pose proof (forEach_turnUp_unit (turnUp ups) (getRangeTurnCost d) n
                (PricingFacts.turnUp_Forall _ ups Hvals) Hbase Hn) as Hloop.
  rewrite PricingFacts.truthy_ge_1; [exact Hloop|].
  rewrite Hloop. change 1 with (inject_Z 1). rewrite <- Zle_Qle. lia.
Qed.

Lemma turnCost_with_unit_upgrades_witness :
  let one id := mkUpgrade id TurnCostCheaper 1 100 in
  turnCost (getPotentialRouteCost (fun _ => 3) [one "a"; one "b"; one "c"; one "d"] 90)
  == 1.
Proof.
  intros one.
  rewrite (turnCost_with_unit_upgrades (fun _ => 3) _ 90 3%Z).
  - reflexivity.
  - reflexivity.
  - lia.
  - repeat constructor; intros _; reflexivity.
Defined.

End RoutePricingFacts.

(** ** Train pricing *)

Module TrainPricingFacts.
Import TrainPricing.

Lemma trainUp_Forall (R : Upgrade -> Prop) (ups : list Upgrade) :
  Forall (fun u => isTrainValueCheaper u -> R u) ups -> Forall R (trainUp ups).
Proof.
  unfold trainUp. induction 1 as [|u l Hu _ IH]; simpl; [constructor|].
  destruct (UpgradeType_eqb _ _) eqn:Heq; [|exact IH].
  constructor; [|exact IH]. apply Hu, PricingFacts.UpgradeType_eqb_eq, Heq.
Qed.

Lemma trainUp_callback_discount (e : Upgrade) (c : Q) :
  0 <= upgrade_value e <= 1 -> 0 <= c ->
  0 <= trainUp_callback e c <= c.
Proof.
  intros [Hv0 Hv1] Hc. unfold trainUp_callback.
  assert (Hlo : 0 <= Pricing.Math_floor (c * upgrade_value e)).
  { apply RoutePricingFacts.Math_floor_nonneg, Qmult_le_0_compat; assumption. }
  pose proof (RoutePricingFacts.Math_floor_le (c * upgrade_value e)) as Hhi.
  assert (c * upgrade_value e <= c) by nra.
  lra.
Qed.

(** X7.  A train of non-negative catalogue cost, adjusted by TrainValueCheaper
    upgrades with values from 0 to 1, costs between 0 and its catalogue
    cost.  Unlike the route price there is no lower clamp. *)
Theorem adjusted_train_cost_bounds (ups : list Upgrade) (train : Train) :
  (0 <= train_cost train)%Z ->
  discounts ups ->
  0 <= adjustedCost (trainUp ups) train <= inject_Z (train_cost train).
Proof.
  intros Hcost Hvals. unfold adjustedCost.
  apply (forEach_preserved trainUp_callback
           (fun c => 0 <= c <= inject_Z (train_cost train))
           (fun u => 0 <= upgrade_value u <= 1)).
  - intros e c Hv [Hlo Hhi].
    destruct (trainUp_callback_discount e c Hv Hlo). lra.
  - apply trainUp_Forall, Hvals.
  - split; [|apply Qle_refl].
    change 0 with (inject_Z 0). rewrite <- Zle_Qle. exact Hcost.
Qed.

Lemma adjusted_train_cost_bounds_witness :
  let ups := [mkUpgrade "train-1" TrainValueCheaper (1 # 10) 100;
              mkUpgrade "train-2" TrainValueCheaper 1 100] in
  0 <= adjustedCost (trainUp ups) (mkTrain "t1" 55) <= 55.
Proof.
  intros ups. apply (adjusted_train_cost_bounds ups (mkTrain "t1" 55)).
  - discriminate.
  - repeat constructor; vm_compute; discriminate.
Defined.

(** The adjusted cost of a train is a whole number, whatever the values of
    the upgrades. *)
Theorem adjusted_train_cost_whole (ups : list Upgrade) (train : Train) :
  exists c : Z, adjustedCost (trainUp ups) train == inject_Z c.
Proof.
  unfold adjustedCost.
  apply (forEach_preserved trainUp_callback (fun c => exists a : Z, c == inject_Z a)
           (fun _ => True)).
  - intros e c _ Hc. apply RoutePricingFacts.whole_minus_floor, Hc.
  - apply Forall_forall. intros; exact I.
  - exists (train_cost train). reflexivity.
Qed.

End TrainPricingFacts.

(** ** Listing trains and routes *)

Module ListingFacts.
Import NardisClass NardisRest NardisFacts.

Lemma getCurrentPlayer_run (w : World) : getCurrentPlayer w = (Normal (_currentPlayer (this w)), w).
Proof. reflexivity. Qed.

Lemma trainUp_none (ups : list Upgrade) :
  Forall (fun u => ~ TrainPricing.isTrainValueCheaper u) ups -> TrainPricing.trainUp ups = [].
Proof.
  unfold TrainPricing.trainUp. induction 1 as [|u l Hu _ IH]; simpl; [reflexivity|].
  destruct (UpgradeType_eqb _ _) eqn:Heq; [|exact IH].
  apply PricingFacts.UpgradeType_eqb_eq in Heq. contradiction.
Qed.

Lemma trainUp_single (before after : list Upgrade) (u : Upgrade) :
  TrainPricing.isTrainValueCheaper u ->
  Forall (fun u => ~ TrainPricing.isTrainValueCheaper u) before ->
  Forall (fun u => ~ TrainPricing.isTrainValueCheaper u) after ->
  TrainPricing.trainUp (before ++ u :: after) = [u].
Proof.
  intros Hu Hb Ha. unfold TrainPricing.trainUp. rewrite List.filter_app. simpl.
  apply PricingFacts.UpgradeType_eqb_eq in Hu. rewrite Hu.
  fold (TrainPricing.trainUp before). fold (TrainPricing.trainUp after).
  rewrite (trainUp_none before Hb), (trainUp_none after Ha). reflexivity.
Qed.

(** X8.  For a current player whose upgrade list has no [undefined] slot,
    [getArrayOfAdjustedTrains] returns one entry per catalogue train, in
    catalogue order, each with the train itself; the catalogue and the rest
    of the state are as before.  A player who owns no TrainValueCheaper
    upgrade is quoted the catalogue cost of each train.  A player who owns
    exactly one, of value [v], is quoted for a train of catalogue cost [c] a
    price from [c - c * v] to [c - c * v + 1]: the discount is the product
    cut down to a whole number. *)
Theorem getArrayOfAdjustedTrains_lists_catalogue
    (w : World) (current : ref) (p : Player) (ups : list Upgrade) :
  _currentPlayer (this w) = Some current ->
  heap w !! current = Some p ->
  _upgrades p = List.map Some ups ->
  exists quoted,
    getArrayOfAdjustedTrains w = (Normal quoted, w) /\
    List.map fst quoted = trains (data (this w)) /\
    (Forall (fun u => ~ TrainPricing.isTrainValueCheaper u) ups ->
     Forall (fun q => snd q = inject_Z (train_cost (fst q))) quoted) /\
    (forall before u after,
       ups = before ++ u :: after ->
       TrainPricing.isTrainValueCheaper u ->
       Forall (fun u => ~ TrainPricing.isTrainValueCheaper u) before ->
       Forall (fun u => ~ TrainPricing.isTrainValueCheaper u) after ->
       Forall (fun q =>
                 let c := inject_Z (train_cost (fst q)) in
                 c - c * upgrade_value u <= snd q <= c - c * upgrade_value u + 1)
              quoted).
Proof.
  intros Hcur Hp Hups.
  exists (List.map (fun train =>
                      (train, TrainPricing.adjustedCost (TrainPricing.trainUp ups) train))
                   (trains (data (this w)))).
  split; [|split; [|split]].
  - unfold getArrayOfAdjustedTrains.
    rewrite (bind_normal _ _ w w (Some current));
      [|rewrite getCurrentPlayer_run, Hcur; reflexivity].
    rewrite (bind_normal _ _ _ _ _ (deref_Some _ current p w Hp)).
    rewrite Hups, definedSlots_Some. reflexivity.
  - rewrite List.map_map. simpl. apply List.map_id.
  - intros Hnone. rewrite (trainUp_none ups Hnone).
    apply Forall_forall. intros q Hq. apply list_elem_of_In, List.in_map_iff in Hq.
    destruct Hq as (train & <- & _). reflexivity.
  - intros before u after -> Hu Hb Ha. rewrite (trainUp_single before after u Hu Hb Ha).
    apply Forall_forall. intros q Hq. apply list_elem_of_In, List.in_map_iff in Hq.
    destruct Hq as (train & <- & _). simpl.
    unfold TrainPricing.adjustedCost, TrainPricing.trainUp_callback, Pricing.Math_floor.
    cbn [forEach].
    pose proof (Qfloor_le (inject_Z (train_cost train) * upgrade_value u)) as Hlo.
    pose proof (Qlt_floor (inject_Z (train_cost train) * upgrade_value u)) as Hhi.
    rewrite inject_Z_plus in Hhi. change (inject_Z 1) with 1 in Hhi.
    generalize dependent (inject_Z (Qfloor (inject_Z (train_cost train) * upgrade_value u))).
    generalize dependent (inject_Z (train_cost train) * upgrade_value u).
    intros x f Hlo Hhi. split; lra.
Qed.

Section RouteListing.

Variable E : Collaborators.
Variable distanceTo : City -> City -> Q.

Lemma foldM_cons {A S : Type} (callback : A -> S -> M S) (e : A) (l : list A) (s : S) :
  foldM callback (e :: l) s = (callback e s ≫= fun s' => foldM callback l s').
Proof. reflexivity. Qed.

Lemma possibleRoutes_callback_run
    (w : World) (current : ref) (p : Player) (ups : list Upgrade)
    (origin : City) (constraint : Z) (city : City) (acc : list PotentialRoute) :
  _currentPlayer (this w) = Some current ->
  heap w !! current = Some p ->
  _upgrades p = List.map Some ups ->
  possibleRoutes_callback E distanceTo origin constraint city acc w
  = (Normal (if withinRange constraint (distanceTo city origin)
             then acc ++ [offer E distanceTo origin ups (_turn (this w)) city]
             else acc), w).
Proof.
  intros Hcur Hp Hups. unfold possibleRoutes_callback.
  erewrite bind_normal;
    [|apply (getPotentialRouteCost_run E w current p ups); assumption].
  destruct (withinRange constraint (distanceTo city origin)); reflexivity.
Qed.

Lemma possibleRoutes_loop
    (w : World) (current : ref) (p : Player) (ups : list Upgrade)
    (origin : City) (constraint : Z) (cities : list City) (acc : list PotentialRoute) :
  _currentPlayer (this w) = Some current ->
  heap w !! current = Some p ->
  _upgrades p = List.map Some ups ->
  foldM (possibleRoutes_callback E distanceTo origin constraint) cities acc w
  = (Normal (acc ++ List.map (offer E distanceTo origin ups (_turn (this w)))
                      (List.filter (fun city => withinRange constraint (distanceTo city origin))
                                   cities)),
     w).
Proof.
  intros Hcur Hp Hups. revert acc.
  induction cities as [|city cities IH]; intros acc.
  - simpl. rewrite app_nil_r. reflexivity.
  - rewrite foldM_cons.
    rewrite (bind_normal _ _ _ _ _
               (possibleRoutes_callback_run w current p ups origin constraint city acc
                  Hcur Hp Hups)).
    simpl List.filter.
    destruct (withinRange constraint (distanceTo city origin)); simpl.
    + rewrite IH, <- app_assoc. reflexivity.
    + apply IH.
Qed.

(** X9.  For a current player whose upgrade list has no [undefined] slot,
    [getArrayOfPossibleRoutes] offers exactly the cities at a distance above
    0 and within the player's range, in catalogue order.  Every offer starts
    at the origin, carries the distance to its city, the cost that
    [getPotentialRouteCost] gives for that distance and the current turn.
    The state is as before. *)
Theorem getArrayOfPossibleRoutes_offers_cities_in_range
    (w : World) (current : ref) (p : Player) (ups : list Upgrade) (origin : City) :
  _currentPlayer (this w) = Some current ->
  heap w !! current = Some p ->
  _upgrades p = List.map Some ups ->
  exists routes,
    getArrayOfPossibleRoutes E distanceTo origin w = (Normal routes, w) /\
    List.map cityTwo routes
      = List.filter (fun city => withinRange (range p) (distanceTo city origin))
                    (cities (data (this w))) /\
    Forall (fun r =>
              cityOne r = origin /\
              distance r = distanceTo (cityTwo r) origin /\
              0 < distance r /\ distance r <= inject_Z (range p) /\
              goldCost r = Pricing.goldCost
                             (Pricing.getPotentialRouteCost (getRangeTurnCost E) ups (distance r)) /\
              turnCost r = Pricing.turnCost
                             (Pricing.getPotentialRouteCost (getRangeTurnCost E) ups (distance r)) /\
              purchasedOnTurn r = _turn (this w))
           routes.
Proof.
  intros Hcur Hp Hups. eexists. split; [|split].
  - unfold getArrayOfPossibleRoutes.
    rewrite (bind_normal _ _ w w (Some current));
      [|rewrite getCurrentPlayer_run, Hcur; reflexivity].
    rewrite (bind_normal _ _ _ _ _ (deref_Some _ current p w Hp)).
    erewrite bind_normal; [|reflexivity].
    apply (possibleRoutes_loop w current p ups); assumption.
  - simpl. rewrite List.map_map. simpl. apply List.map_id.
  - simpl. apply Forall_forall. intros r Hr.
    apply list_elem_of_In, List.in_map_iff in Hr. destruct Hr as (city & <- & Hin).
    apply List.filter_In in Hin as [_ Hrange].
    unfold withinRange in Hrange. apply andb_prop in Hrange as [Hpos Hmax].
    apply Qle_bool_iff in Hmax.
    repeat split; try reflexivity; [|exact Hmax].
    apply Qnot_le_lt. intros Hle. apply Qle_bool_iff in Hle.
    simpl in Hle. rewrite Hle in Hpos. discriminate.
Qed.

End RouteListing.

Lemma getArrayOfAdjustedTrains_lists_catalogue_witness :
  exists quoted,
    getArrayOfAdjustedTrains MoreSamples.withCatalogue
      = (Normal quoted, MoreSamples.withCatalogue) /\
    List.map fst quoted = MoreSamples.sampleTrains /\
    Forall (fun q =>
              let c := inject_Z (train_cost (fst q)) in
              c - c * (1 # 5) <= snd q <= c - c * (1 # 5) + 1)
           quoted.
Proof.
  destruct (getArrayOfAdjustedTrains_lists_catalogue MoreSamples.withCatalogue 0%nat
              MoreSamples.traveller [MoreSamples.trackUpgrade; MoreSamples.trainUpgrade]
              eq_refl eq_refl eq_refl)
    as (quoted & Hrun & Htrains & _ & Hone).
  exists quoted. split; [exact Hrun|]. split; [exact Htrains|].
  apply (Hone [MoreSamples.trackUpgrade] MoreSamples.trainUpgrade []).
  - reflexivity.
  - reflexivity.
  - repeat constructor. discriminate.
  - constructor.
Defined.

Lemma getArrayOfPossibleRoutes_offers_cities_in_range_witness :
  exists routes,
    getArrayOfPossibleRoutes (Samples.collaborators Samples.quietTurn)
      MoreSamples.sampleDistance MoreSamples.aarhus MoreSamples.withCatalogue
      = (Normal routes, MoreSamples.withCatalogue) /\
    List.map cityTwo routes = [MoreSamples.odense].
Proof.
  destruct (getArrayOfPossibleRoutes_offers_cities_in_range
              (Samples.collaborators Samples.quietTurn) MoreSamples.sampleDistance
              MoreSamples.withCatalogue 0%nat MoreSamples.traveller
              [MoreSamples.trackUpgrade; MoreSamples.trainUpgrade] MoreSamples.aarhus
              eq_refl eq_refl eq_refl)
    as (routes & Hrun & Hcities & _).
  exists routes. split; [exact Hrun | exact Hcities].
Defined.

End ListingFacts.

(** ** Buying and cancelling *)

Module PurchaseFacts.
Import NardisClass NardisRest NardisFacts.

(** *** The ledger *)

Lemma merge_entry_None (type : FinanceType) (id : string) (quantity : Z)
    (l : list FinanceEntry) :
  existsb (entry_matches type id) l = false -> merge_entry type id quantity l = None.
Proof.
  induction l as [|e l IH]; simpl; [reflexivity|].
  intros H. apply orb_false_iff in H as [He Hl].
  rewrite He, (IH Hl). reflexivity.
Qed.

Lemma remove_entry_None (type : FinanceType) (id : string) (l : list FinanceEntry) :
  existsb (entry_matches type id) l = false -> remove_entry type id l = None.
Proof.
  induction l as [|e l IH]; simpl; [reflexivity|].
  intros H. apply orb_false_iff in H as [He Hl].
  rewrite He, (IH Hl). reflexivity.
Qed.

Lemma remove_entry_Some (type : FinanceType) (id : string) (l : list FinanceEntry) :
  existsb (entry_matches type id) l = true ->
  exists before e after,
    l = before ++ e :: after /\
    existsb (entry_matches type id) before = false /\
    entry_matches type id e = true /\
    remove_entry type id l = Some (before ++ after).
Proof.
  induction l as [|e l IH]; simpl; [discriminate|].
  destruct (entry_matches type id e) eqn:He; simpl.
  - intros _. exists [], e, l. auto.
  - intros Hl. destruct (IH Hl) as (before & e' & after & -> & Hb & He' & Hrem).
    exists (e :: before), e', after. simpl. rewrite He, Hb, Hrem. auto.
Qed.

Lemma remove_entry_app (type : FinanceType) (id : string)
    (before after : list FinanceEntry) (e : FinanceEntry) :
  existsb (entry_matches type id) before = false ->
  entry_matches type id e = true ->
  remove_entry type id (before ++ e :: after) = Some (before ++ after).
Proof.
  intros Hb He. induction before as [|b before IH]; simpl.
  - rewrite He. reflexivity.
  - simpl in Hb. apply orb_false_iff in Hb as [Hb1 Hb2].
    rewrite Hb1, (IH Hb2). reflexivity.
Qed.

(** Entries of one category never match a key of another. *)
Lemma entry_matches_other_type (type type' : FinanceType) (id id' : string)
    (e : FinanceEntry) :
  FinanceType_eqb type type' = false ->
  entry_matches type id e = true -> entry_matches type' id' e = false.
Proof.
  unfold entry_matches. intros Hne H. apply andb_prop in H as [Ht _].
  destruct (entry_type e), type, type'; simpl in *; try discriminate; try reflexivity.
  apply Nat.eqb_eq in Ht. subst. rewrite Hne. reflexivity.
Qed.

(** *** The queue *)

Lemma queue_has_app (routeId : string) (q1 q2 : list (Route * Q)) :
  queue_has routeId (q1 ++ q2) = queue_has routeId q1 || queue_has routeId q2.
Proof. apply existsb_app. Qed.

Lemma queue_remove_last (route : Route) (turnCost : Q) (q : list (Route * Q)) :
  Forall (fun e => route_id (fst e) <> route_id route) q ->
  queue_remove (route_id route) (q ++ [(route, turnCost)]) = q.
Proof.
  induction 1 as [|e q He _ IH]; simpl.
  - rewrite String.eqb_refl. reflexivity.
  - apply String.eqb_neq in He. rewrite He, IH. reflexivity.
Qed.

(** *** Player objects in the store *)

Lemma invoke_over {A : Type} (reading : string) (r : ref) (q q' : Player)
    (h : gmap ref Player) (method : Player -> A * Player) (a : A) (w : World) :
  method q = (a, q') ->
  invoke reading (Some r) method (set_heap (<[r := q]> h) w)
  = (Normal a, set_heap (<[r := q']> h) w).
Proof.
  intros Hm.
  rewrite (invoke_Some reading r q q' method a); [|apply lookup_insert_eq|exact Hm].
  simpl. rewrite insert_insert_eq. reflexivity.
Qed.

Lemma world_as_store (w : World) (r : ref) (p : Player) :
  heap w !! r = Some p -> w = set_heap (<[r := p]> (heap w)) w.
Proof. intros Hp. rewrite (insert_id _ _ _ Hp). symmetry. apply set_heap_same. Qed.

Lemma player_eta_finance (p : Player) :
  mkPlayer (player_id p) (playerType p) (gold p) (range p) (_routes p)
           (_upgrades p) (mkFinance (expense (_finance p))) (_queue p) = p.
Proof. destruct p as [? ? ? ? ? ? [?] ?]. reflexivity. Qed.

Section Purchase.

Variable Route_new : string -> BuyableRoute -> Completion Route.

Lemma addRouteToPlayerQueue_run
    (b : BuyableRoute) (route : Route) (w : World) (h : gmap ref Player)
    (current : ref) (p : Player) :
  _currentPlayer (this w) = Some current ->
  Route_new (city_name (buy_cityOne b) +:+ " <--> " +:+ city_name (buy_cityTwo b)) b
    = Normal route ->
  hasExpense FinanceTrack (route_id route) p = false ->
  hasExpense FinanceTrain (train_id (buy_train b)) p = false ->
  addRouteToPlayerQueue Route_new b (set_heap (<[current := p]> h) w)
  = (Normal tt, set_heap (<[current := bought b route p]> h) w).
Proof.
  intros Hcur Hnew Htrack Htrain. unfold addRouteToPlayerQueue.
  erewrite bind_normal; [|unfold lift; rewrite Hnew; reflexivity].
  erewrite bind_normal; cycle 1.
  { unfold handleNewRoutePlayerFinance.
    erewrite bind_normal; [|reflexivity]. simpl _currentPlayer. rewrite Hcur.
    erewrite bind_normal; [|apply deref_Some, lookup_insert_eq].
    erewrite bind_normal; [|apply invoke_over; reflexivity].
    apply invoke_over. reflexivity. }
  erewrite bind_normal; [|reflexivity]. simpl _currentPlayer. rewrite Hcur.
  erewrite invoke_over; [|reflexivity].
  f_equal. f_equal. f_equal.
  unfold bought, Player_addRouteToQueue, Player_onFinance, set_queue, set_finance,
    Finance_addToFinanceExpense. simpl.
  unfold hasExpense in Htrack, Htrain.
  rewrite (merge_entry_None _ _ _ _ Htrack). simpl.
  rewrite merge_entry_None.
  - simpl. rewrite <- app_assoc. reflexivity.
  - rewrite existsb_app, Htrain. reflexivity.
Qed.

Lemma removeRouteFromPlayerQueue_run
    (routeId trainId : string) (w : World) (h : gmap ref Player)
    (current : ref) (p : Player) (l1 l2 : list FinanceEntry) :
  _currentPlayer (this w) = Some current ->
  queue_has routeId (_queue p) = true ->
  remove_entry FinanceTrack routeId (expense (_finance p)) = Some l1 ->
  remove_entry FinanceTrain trainId l1 = Some l2 ->
  removeRouteFromPlayerQueue routeId trainId (set_heap (<[current := p]> h) w)
  = (Normal true,
     set_heap (<[current :=
                 mkPlayer (player_id p) (playerType p) (gold p) (range p) (_routes p)
                   (_upgrades p) (mkFinance l2) (queue_remove routeId (_queue p))]> h) w).
Proof.
  intros Hcur Hq Htrack Htrain. unfold removeRouteFromPlayerQueue.
  erewrite bind_normal; [|reflexivity]. simpl _currentPlayer. rewrite Hcur.
  erewrite bind_normal;
    [|apply invoke_over; unfold Player_removeRouteFromQueue; rewrite Hq; reflexivity].
  unfold handleRemoveRouteFromPlayerFinance.
  erewrite bind_normal; [|reflexivity]. simpl _currentPlayer. rewrite Hcur.
  erewrite bind_normal; cycle 1.
  { apply invoke_over.
    unfold Player_onFinance, Finance_removeFromFinanceExpense. simpl.
    rewrite Htrack. reflexivity. }
  apply invoke_over.
  unfold Player_onFinance, Finance_removeFromFinanceExpense. simpl.
  rewrite Htrain. reflexivity.
Qed.

(** X10.  Buying a route and cancelling it at once is a round trip.  When the new
    route's id is not queued yet and the ledger has no Track expense for it
    and no Train expense for its train, [addRouteToPlayerQueue] followed by
    [removeRouteFromPlayerQueue] with the ids of the route and of its train
    returns true and leaves the queue, the ledger and everything else
    exactly as they were. *)
Theorem add_then_remove_route_restores_state
    (b : BuyableRoute) (route : Route) (w : World) (current : ref) (p : Player) :
  _currentPlayer (this w) = Some current ->
  heap w !! current = Some p ->
  Route_new (city_name (buy_cityOne b) +:+ " <--> " +:+ city_name (buy_cityTwo b)) b
    = Normal route ->
  notQueued (route_id route) p ->
  hasExpense FinanceTrack (route_id route) p = false ->
  hasExpense FinanceTrain (train_id (buy_train b)) p = false ->
  (addRouteToPlayerQueue Route_new b;;
   removeRouteFromPlayerQueue (route_id route) (train_id (buy_train b))) w
  = (Normal true, w).
Proof.
  intros Hcur Hp Hnew Hfresh Htrack Htrain.
  rewrite (world_as_store w current p Hp) at 1.
  erewrite bind_normal;
    [|apply (addRouteToPlayerQueue_run b route); eassumption].
  erewrite (removeRouteFromPlayerQueue_run _ _ _ _ _ (bought b route p));
    [| exact Hcur | | | ].
  - simpl. rewrite (queue_remove_last route _ _ Hfresh).
    rewrite player_eta_finance. rewrite (insert_id _ _ _ Hp), set_heap_same. reflexivity.
  - simpl. rewrite queue_has_app. simpl. rewrite String.eqb_refl.
    apply orb_true_iff. right. reflexivity.
  - simpl. apply remove_entry_app; [exact Htrack|].
    unfold entry_matches. simpl. rewrite String.eqb_refl. reflexivity.
  - pose proof (remove_entry_app FinanceTrain (train_id (buy_train b))
                  (expense (_finance p)) []
                  (mkFinanceEntry FinanceTrain (train_id (buy_train b)) 1 (buy_trainCost b))
                  Htrain) as Hrem.
    rewrite app_nil_r in Hrem. apply Hrem.
    unfold entry_matches. simpl. rewrite String.eqb_refl. reflexivity.
Qed.

End Purchase.

(** X11.  Whether cancelling succeeds: [removeRouteFromPlayerQueue] returns true
    exactly when the route is queued, the ledger has a Track expense for the
    route id and it has a Train expense for the train id. *)
Theorem removeRouteFromPlayerQueue_result
    (routeId trainId : string) (w : World) (current : ref) (p : Player) :
  _currentPlayer (this w) = Some current ->
  heap w !! current = Some p ->
  fst (removeRouteFromPlayerQueue routeId trainId w)
  = Normal (queue_has routeId (_queue p)
            && hasExpense FinanceTrack routeId p
            && hasExpense FinanceTrain trainId p).
Proof.
  intros Hcur Hp. rewrite (world_as_store w current p Hp).
  unfold removeRouteFromPlayerQueue.
  erewrite bind_normal; [|reflexivity]. simpl _currentPlayer. rewrite Hcur.
  unfold Player_removeRouteFromQueue at 1.
  destruct (queue_has routeId (_queue p)) eqn:Hq.
  - erewrite bind_normal;
      [|apply invoke_over; unfold Player_removeRouteFromQueue; rewrite Hq; reflexivity].
    unfold handleRemoveRouteFromPlayerFinance.
    erewrite bind_normal; [|reflexivity]. simpl _currentPlayer. rewrite Hcur.
    unfold hasExpense.
    destruct (existsb (entry_matches FinanceTrack routeId) (expense (_finance p)))
      eqn:Htrack.
    + destruct (remove_entry_Some _ _ _ Htrack)
        as (before & e & after & Hl & Hb & He & Hrem).
      erewrite bind_normal; cycle 1.
      { apply invoke_over.
        unfold Player_onFinance, Finance_removeFromFinanceExpense. simpl.
        rewrite Hrem. reflexivity. }
      assert (Hsame : existsb (entry_matches FinanceTrain trainId) (before ++ after)
                      = existsb (entry_matches FinanceTrain trainId)
                                (expense (_finance p))).
      { rewrite Hl, !existsb_app. simpl.
        rewrite (entry_matches_other_type FinanceTrack FinanceTrain routeId trainId e
                   eq_refl He). reflexivity. }
      rewrite <- Hsame.
      destruct (existsb (entry_matches FinanceTrain trainId) (before ++ after)) eqn:Htrain.
      * destruct (remove_entry_Some _ _ _ Htrain) as (b' & e' & a' & _ & _ & _ & Hrem').
        cbv beta iota. erewrite invoke_over; [reflexivity|].
        unfold Player_onFinance, Finance_removeFromFinanceExpense. simpl.
        rewrite Hrem'. reflexivity.
      * erewrite invoke_over; [reflexivity|].
        unfold Player_onFinance, Finance_removeFromFinanceExpense. simpl.
        rewrite (remove_entry_None _ _ _ Htrain). reflexivity.
    + erewrite bind_normal; cycle 1.
      { apply invoke_over.
        unfold Player_onFinance, Finance_removeFromFinanceExpense. simpl.
        rewrite (remove_entry_None _ _ _ Htrack). reflexivity. }
      reflexivity.
  - erewrite bind_normal;
      [|apply invoke_over; unfold Player_removeRouteFromQueue; rewrite Hq; reflexivity].
    reflexivity.
Qed.

(** X13.  Buying an upgrade that the catalogue has.  [addUpgradeToPlayer] returns
    true and grants the first catalogue upgrade with that id: the current
    player's upgrade list ends with it, and a ledger with no Upgrade expense
    for the id gains one, of quantity 1 at the upgrade's cost.  The gold
    balance is neither looked at nor changed, and nothing but the current
    player object changes. *)
Theorem addUpgradeToPlayer_grants_first_match
    (id : string) (w : World) (current : ref) (p : Player)
    (before after : list Upgrade) (u : Upgrade) :
  _currentPlayer (this w) = Some current ->
  heap w !! current = Some p ->
  upgrades (data (this w)) = before ++ u :: after ->
  upgrade_id u = id ->
  Forall (fun v => upgrade_id v <> id) before ->
  exists p',
    addUpgradeToPlayer id w = (Normal true, set_heap (<[current := p']> (heap w)) w) /\
    _upgrades p' = _upgrades p ++ [Some u] /\
    gold p' = gold p /\
    _queue p' = _queue p /\
    (hasExpense FinanceUpgrade id p = false ->
     expense (_finance p')
     = expense (_finance p) ++ [mkFinanceEntry FinanceUpgrade id 1 (upgrade_cost u)]).
Proof.
  intros Hcur Hp Hcat Hid Hbefore. subst id.
  eexists. split; [|split; [|split; [|split]]].
  - rewrite (world_as_store w current p Hp) at 1.
    unfold addUpgradeToPlayer.
    erewrite bind_normal; [|reflexivity].
    change (this (set_heap (<[current := p]> (heap w)) w)) with (this w).
    rewrite Hcat.
    rewrite List.filter_app, (filter_no_match _ _ Hbefore). simpl.
    rewrite String.eqb_refl. simpl.
    erewrite bind_normal; [|reflexivity]. simpl _currentPlayer. rewrite Hcur.
    erewrite bind_normal; [|apply invoke_over; reflexivity].
    erewrite bind_normal; [|apply deref_Some, lookup_insert_eq].
    erewrite bind_normal; [|apply invoke_over; reflexivity].
    reflexivity.
  - reflexivity.
  - reflexivity.
  - reflexivity.
  - intros Hnone. simpl. unfold Finance_addToFinanceExpense.
    rewrite merge_entry_None by exact Hnone. reflexivity.
Qed.

Lemma add_then_remove_route_restores_state_witness :
  (addRouteToPlayerQueue MoreSamples.sampleRoute MoreSamples.proposal;;
   removeRouteFromPlayerQueue "Aarhus <--> Odense" "t1") MoreSamples.withCatalogue
  = (Normal true, MoreSamples.withCatalogue).
Proof.
  apply (add_then_remove_route_restores_state MoreSamples.sampleRoute
           MoreSamples.proposal (mkRoute "Aarhus <--> Odense" 108)
           MoreSamples.withCatalogue 0%nat MoreSamples.traveller);
    try reflexivity.
  constructor.
Defined.

Lemma removeRouteFromPlayerQueue_result_witness :
  fst (removeRouteFromPlayerQueue "r1" "t1" Samples.withQueuedRoute) = Normal true /\
  fst (removeRouteFromPlayerQueue "r1" "t2" Samples.withQueuedRoute) = Normal false.
Proof.
  split.
  - exact (removeRouteFromPlayerQueue_result "r1" "t1" Samples.withQueuedRoute 0%nat
             Samples.buyer eq_refl eq_refl).
  - exact (removeRouteFromPlayerQueue_result "r1" "t2" Samples.withQueuedRoute 0%nat
             Samples.buyer eq_refl eq_refl).
Defined.

Lemma addUpgradeToPlayer_grants_first_match_witness :
  exists p',
    fst (addUpgradeToPlayer "u-train" MoreSamples.withCatalogue) = Normal true /\
    heap (snd (addUpgradeToPlayer "u-train" MoreSamples.withCatalogue)) !! 0%nat = Some p' /\
    _upgrades p' = _upgrades MoreSamples.traveller ++ [Some MoreSamples.trainUpgrade] /\
    expense (_finance p') = [mkFinanceEntry FinanceUpgrade "u-train" 1 400].
Proof.
  destruct (addUpgradeToPlayer_grants_first_match "u-train" MoreSamples.withCatalogue
              0%nat MoreSamples.traveller [MoreSamples.trackUpgrade] []
              MoreSamples.trainUpgrade eq_refl eq_refl eq_refl eq_refl)
    as (p' & Hrun & Hups & _ & _ & Hledger).
  - repeat constructor. discriminate.
  - exists p'. rewrite Hrun. simpl. rewrite lookup_insert_eq.
    repeat split; [exact Hups | apply Hledger; reflexivity].
Defined.

End PurchaseFacts.

(** ** Saving, clearing and restoring *)

Module StorageFacts.
Import NardisClass NardisRest NardisFacts.

Section Storage.

Variable E : Collaborators.

Lemma forEachM_removeItem (keys : list string) (w : World) :
  forEachM removeItem keys w
  = (Normal tt,
     set_localStorage (fold_left (fun st key => delete key st) keys (localStorage w)) w).
Proof.
  revert w. induction keys as [|key keys IH]; intros w; simpl.
  - destruct w. reflexivity.
  - erewrite bind_normal; [|reflexivity]. rewrite IH. reflexivity.
Qed.

Lemma fold_delete_lookup (keys : list string) (st : gmap string string) (key : string) :
  fold_left (fun st key => delete key st) keys st !! key
  = if bool_decide (key ∈ keys) then None else st !! key.
Proof.
  revert st. induction keys as [|k keys IH]; intros st; cbn [fold_left].
  - case_bool_decide as Hin; [inversion Hin | reflexivity].
  - rewrite IH. case_bool_decide as Hin; case_bool_decide as Hin'.
    + reflexivity.
    + exfalso. apply Hin'. right. exact Hin.
    + apply elem_of_cons in Hin' as [->|Hin']; [apply lookup_delete_eq | contradiction].
    + apply lookup_delete_ne. intros ->. apply Hin'. left.
Qed.

Lemma localKey_in_array (k : LocalKey) :
  localKeys E k ∈ List.map (localKeys E) localKeysArray.
Proof.
  apply list_elem_of_In, List.in_map.
  destruct k; simpl; tauto.
Qed.

(** X19.  [clearStorage] removes every key of [localKeys], present or not, and
    touches nothing else: other storage entries, the players and the game
    instance are as before. *)
Theorem clearStorage_removes_every_local_key (w : World) :
  exists storage,
    clearStorage E w = (Normal tt, set_localStorage storage w) /\
    (forall k, storage !! localKeys E k = None) /\
    (forall key, (forall k, localKeys E k <> key) -> storage !! key = localStorage w !! key).
Proof.
  eexists. split; [apply forEachM_removeItem|]. split.
  - intros k. rewrite fold_delete_lookup.
    rewrite bool_decide_eq_true_2; [reflexivity | apply localKey_in_array].
  - intros key Hkey. rewrite fold_delete_lookup.
    rewrite bool_decide_eq_false_2; [reflexivity|].
    intros Hin. apply list_elem_of_In, List.in_map_iff in Hin.
    destruct Hin as (k & Hk & _). exact (Hkey k Hk).
Qed.

Lemma guard_throws (w : World) :
  item_truthy (localStorage w !! localKeys E HasActiveGame) = false ->
  fst (createFromLocalStorage E w) = Throw (Error "cannot recreate from empty storage").
Proof.
  intros Hflag. unfold createFromLocalStorage.
  rewrite (bind_normal _ _ w w (localStorage w !! localKeys E HasActiveGame));
    [|reflexivity].
  rewrite Hflag. reflexivity.
Qed.

(** X20.  A cleared game cannot be restored: [createFromLocalStorage] called after
    [clearStorage] throws the empty-storage error, whatever was stored. *)
Theorem clearStorage_then_restore_throws (w : World) :
  fst ((clearStorage E;; createFromLocalStorage E) w)
  = Throw (Error "cannot recreate from empty storage").
Proof.
  erewrite bind_normal; [|apply forEachM_removeItem].
  apply guard_throws. cbn [localStorage set_localStorage]. rewrite fold_delete_lookup.
  rewrite bool_decide_eq_true_2 by apply localKey_in_array.
  reflexivity.
Qed.

Ltac lookup_written :=
  repeat (rewrite lookup_insert; case_decide; [eauto|]); try congruence.

Lemma saveGame_explicit (w : World) (current : ref) (p : Player) :
  allObjects (players (this w)) w ->
  _currentPlayer (this w) = Some current ->
  heap w !! current = Some p ->
  saveGame E w
  = (Normal tt,
     set_localStorage
       (savedStorage E (this w) (omap (fun r => heap w !! r) (players (this w))) p
          (localStorage w)) w).
Proof.
  intros Hobj Hcur Hp. unfold saveGame, setItem.
  do 7 (erewrite bind_normal; [|reflexivity]).
  erewrite bind_normal; [|apply mapM_deref; exact Hobj].
  do 2 (erewrite bind_normal; [|reflexivity]).
  erewrite bind_normal; [|simpl; rewrite Hcur; apply deref_Some; exact Hp].
  do 2 (erewrite bind_normal; [|reflexivity]).
  reflexivity.
Qed.

(** X17.  A successful [saveGame] leaves an entry under every key of [localKeys]
    and changes nothing else.  When the keys are pairwise distinct, the
    active-game flag holds "1" and the turn and current-player entries hold
    the encodings of the current turn and of the current player. *)
Theorem saveGame_writes_every_local_key (w : World) (current : ref) (p : Player) :
  allObjects (players (this w)) w ->
  _currentPlayer (this w) = Some current ->
  heap w !! current = Some p ->
  exists storage,
    saveGame E w = (Normal tt, set_localStorage storage w) /\
    (forall k, is_Some (storage !! localKeys E k)) /\
    (forall key, (forall k, localKeys E k <> key) -> storage !! key = localStorage w !! key) /\
    ((forall k k', localKeys E k = localKeys E k' -> k = k') ->
     storage !! localKeys E HasActiveGame = Some "1" /\
     storage !! localKeys E Turn = Some (encodeTurn E (_turn (this w))) /\
     storage !! localKeys E CurrentPlayer = Some (encodePlayer E p)).
Proof.
  intros Hobj Hcur Hp.
  exists (savedStorage E (this w) (omap (fun r => heap w !! r) (players (this w))) p
            (localStorage w)).
  split; [|split; [|split]].
  - apply (saveGame_explicit w current p); assumption.
  - intros k. unfold savedStorage, partlySaved. destruct k; lookup_written.
  - intros key Hkey. unfold savedStorage, partlySaved.
    rewrite !lookup_insert_ne by apply Hkey. reflexivity.
  - intros Hinj. unfold savedStorage, partlySaved. repeat split.
    + rewrite !lookup_insert_ne by (intros H; apply Hinj in H; discriminate).
      apply lookup_insert_eq.
    + apply lookup_insert_eq.
    + rewrite lookup_insert_ne by (intros H; apply Hinj in H; discriminate).
      apply lookup_insert_eq.
Qed.

(** X18.  A game without players has no current player, and its [endTurn] fails
    half-way: the turn counter is advanced and the active-game flag is
    written, then [saveGame] throws a TypeError on the missing current
    player.  With pairwise distinct keys the flag holds "1" while the turn
    and current-player entries are whatever they were: the save is partial. *)
Theorem endTurn_without_players_saves_partially (w : World) :
  players (this w) = [] ->
  _currentPlayer (this w) = None ->
  exists w',
    endTurn E w = (Throw (TypeError "deconstruct"), w') /\
    _turn (this w') = (_turn (this w) + 1)%Z /\
    is_Some (localStorage w' !! localKeys E HasActiveGame) /\
    ((forall k k', localKeys E k = localKeys E k' -> k = k') ->
     localStorage w' !! localKeys E HasActiveGame = Some "1" /\
     localStorage w' !! localKeys E Turn = localStorage w !! localKeys E Turn /\
     localStorage w' !! localKeys E CurrentPlayer
       = localStorage w !! localKeys E CurrentPlayer).
Proof.
  intros Hplayers Hcur.
  exists (set_localStorage (partlySaved E (this w) [] (localStorage w))
            (set_this (set_turn (_turn (this w) + 1)
                         (set_currentPlayer None (this w))) w)).
  split; [|split; [|split]].
  - unfold endTurn, handleComputerTurn.
    erewrite bind_normal; cycle 1.
    { do 2 (erewrite bind_normal; [|reflexivity]).
      rewrite Hplayers, Hcur. reflexivity. }
    erewrite bind_normal; [|reflexivity].
    unfold saveGame, setItem.
    do 7 (erewrite bind_normal; [|reflexivity]).
    simpl players. rewrite Hplayers.
    do 3 (erewrite bind_normal; [|reflexivity]).
    reflexivity.
  - reflexivity.
  - simpl. unfold partlySaved. lookup_written.
  - intros Hinj. simpl. unfold partlySaved. repeat split.
    + rewrite !lookup_insert_ne by (intros H; apply Hinj in H; discriminate).
      apply lookup_insert_eq.
    + rewrite !lookup_insert_ne by (intros H; apply Hinj in H; discriminate).
      reflexivity.
    + rewrite !lookup_insert_ne by (intros H; apply Hinj in H; discriminate).
      reflexivity.
Qed.

(** *** Restoring *)

Lemma alloc_run (o : Player) (w : World) :
  alloc o w = (Normal (fresh (dom (heap w))),
               set_heap (<[fresh (dom (heap w)) := o]> (heap w)) w).
Proof. reflexivity. Qed.

Lemma fresh_unused (h : gmap ref Player) : h !! fresh (dom h) = None.
Proof. apply not_elem_of_dom, is_fresh. Qed.

(** Allocating the restored players: every one gets an address of its own
    that no object had, and the objects that were there stay. *)
Lemma mapM_alloc (objects : list Player) (w : World) :
  exists refs h',
    mapM alloc objects w = (Normal refs, set_heap h' w) /\
    Forall2 (fun r o => h' !! r = Some o) refs objects /\
    NoDup refs /\
    Forall (fun r => heap w !! r = None) refs /\
    heap w ⊆ h'.
Proof.
  revert w. induction objects as [|o objects IH]; intros w.
  - exists [], (heap w). simpl. rewrite set_heap_same.
    split; [reflexivity|]. split; [constructor|]. split; [constructor|].
    split; [constructor|]. reflexivity.
  - set (r := fresh (dom (heap w))).
    destruct (IH (set_heap (<[r := o]> (heap w)) w))
      as (refs & h' & Hrun & Hobjs & Hnodup & Hfresh & Hsub).
    simpl in Hfresh, Hsub.
    assert (Hr : heap w !! r = None) by apply fresh_unused.
    exists (r :: refs), h'. split; [|split; [|split; [|split]]].
    + simpl. erewrite bind_normal; [|apply alloc_run].
      fold r. erewrite bind_normal; [|exact Hrun]. reflexivity.
    + constructor; [|exact Hobjs].
      apply (lookup_weaken _ _ _ _ (lookup_insert_eq (heap w) r o) Hsub).
    + apply NoDup_cons. split; [|exact Hnodup].
      intros Hin. rewrite Forall_forall in Hfresh.
      specialize (Hfresh r Hin). rewrite lookup_insert_eq in Hfresh. discriminate.
    + constructor; [exact Hr|].
      eapply Forall_impl; [exact Hfresh|]. intros r' Hr'.
      apply lookup_insert_None in Hr'. tauto.
    + etrans; [|exact Hsub]. apply insert_subseteq, Hr.
Qed.

Lemma raw_run (key : string) (w : World) (raw : Json E) :
  JSON_parse_atob E (localStorage w !! key) = Normal raw ->
  (getItem key ≫= (lift ∘ JSON_parse_atob E)) w = (Normal raw, w).
Proof.
  intros Hraw. erewrite bind_normal; [|reflexivity].
  unfold compose, lift. rewrite Hraw. reflexivity.
Qed.

Lemma filterM_id (raw : Json E) (id : string) (l : list ref) (w : World) :
  raw_id E raw = Normal id ->
  allObjects l w ->
  filterM (fun player =>
             p ← deref "id" (Some player);
             id ← lift (raw_id E raw);
             mret (String.eqb (player_id p) id)) l w
  = (Normal (List.filter (hasIdAt w id) l), w).
Proof.
  intros Hid. induction 1 as [|r l [p Hp] _ IH]; simpl; [reflexivity|].
  erewrite bind_normal; cycle 1.
  { erewrite bind_normal; [|apply deref_Some, Hp].
    erewrite bind_normal; [|unfold lift; rewrite Hid; reflexivity].
    reflexivity. }
  erewrite bind_normal; [|exact IH].
  assert (Hr : hasIdAt w id r = String.eqb (player_id p) id)
    by (unfold hasIdAt; rewrite Hp; reflexivity).
  rewrite Hr. reflexivity.
Qed.

(** X21.  Restoring a saved game.  When the flag is set and every stored entry
    decodes, [createFromLocalStorage] returns a game with the decoded
    catalogue whose players are new objects, one per decoded player, at
    addresses that are pairwise distinct and were unused; the objects that
    existed before, the storage and the running instance are untouched.
    Its current player is the first restored player whose id is the stored
    one and, when there is none, the first restored player.  Its turn is the
    stored number, or 1 when that is 0 or not a number: never 0. *)
Theorem createFromLocalStorage_restores
    (w : World)
    (trainsRaw citiesRaw resourcesRaw upgradesRaw playersRaw currentPlayerRaw : Json E)
    (ts : list Train) (us : list Upgrade) (rs : list Resource) (cs : list City)
    (objects : list Player) (id : string) :
  item_truthy (localStorage w !! localKeys E HasActiveGame) = true ->
  JSON_parse_atob E (localStorage w !! localKeys E Trains) = Normal trainsRaw ->
  JSON_parse_atob E (localStorage w !! localKeys E Cities) = Normal citiesRaw ->
  JSON_parse_atob E (localStorage w !! localKeys E Resources) = Normal resourcesRaw ->
  JSON_parse_atob E (localStorage w !! localKeys E Upgrades) = Normal upgradesRaw ->
  JSON_parse_atob E (localStorage w !! localKeys E Players) = Normal playersRaw ->
  JSON_parse_atob E (localStorage w !! localKeys E CurrentPlayer) = Normal currentPlayerRaw ->
  createTrains E trainsRaw = Normal ts ->
  createUpgrades E upgradesRaw = Normal us ->
  createResources E resourcesRaw = Normal rs ->
  createCities E citiesRaw rs = Normal cs ->
  createPlayers E playersRaw cs ts rs = Normal objects ->
  raw_id E currentPlayerRaw = Normal id ->
  exists n w',
    createFromLocalStorage E w = (Normal n, w') /\
    data n = mkGameData ts us rs cs /\
    Forall2 (fun r o => heap w' !! r = Some o) (players n) objects /\
    NoDup (players n) /\
    Forall (fun r => heap w !! r = None) (players n) /\
    heap w ⊆ heap w' /\
    localStorage w' = localStorage w /\
    this w' = this w /\
    _currentPlayer n
      = match List.filter (hasIdAt w' id) (players n) !! 0%nat with
        | Some r => Some r
        | None => players n !! 0%nat
        end /\
    _turn n
      = match parseInt E (localStorage w !! localKeys E Turn) with
        | Some t => if Z.eqb t 0 then 1%Z else t
        | None => 1%Z
        end /\
    _turn n <> 0%Z.
Proof.
  intros Hflag Htr Hci Hre Hup Hpl Hcu Hts Hus Hrs Hcs Hobjs Hid.
  destruct (mapM_alloc objects w) as (refs & h' & Halloc & Hat & Hnodup & Hfresh & Hsub).
  eexists. exists (set_heap h' w).
  split; [|split; [|split; [|split; [|split; [|split; [|split; [|split;
    [|split; [|split]]]]]]]]].
  - unfold createFromLocalStorage.
    rewrite (bind_normal _ _ w w (localStorage w !! localKeys E HasActiveGame));
      [|reflexivity].
    rewrite Hflag. cbn [negb].
    do 6 (erewrite bind_normal; [|apply raw_run; eassumption]).
    erewrite bind_normal; [|unfold lift; rewrite Hts; reflexivity].
    erewrite bind_normal; [|unfold lift; rewrite Hus; reflexivity].
    erewrite bind_normal; [|unfold lift; rewrite Hrs; reflexivity].
    erewrite bind_normal; [|unfold lift; rewrite Hcs; reflexivity].
    erewrite bind_normal; [|unfold lift; rewrite Hobjs; reflexivity].
    erewrite bind_normal; [|exact Halloc].
    erewrite bind_normal; cycle 1.
    { apply (filterM_id currentPlayerRaw id); [exact Hid|].
      unfold allObjects. simpl.
      clear -Hat. induction Hat; constructor; eauto. }
    erewrite bind_normal; [|reflexivity].
    reflexivity.
  - reflexivity.
  - exact Hat.
  - exact Hnodup.
  - exact Hfresh.
  - exact Hsub.
  - reflexivity.
  - reflexivity.
  - simpl. destruct (List.filter _ refs !! 0%nat); reflexivity.
  - reflexivity.
  - simpl. destruct (parseInt E _) as [t|]; [|discriminate].
    destruct (Z.eqb t 0) eqn:Ht; [discriminate|]. apply Z.eqb_neq, Ht.
Qed.

End Storage.

Section SavedTurn.

Variable E : Collaborators.

Hypothesis routines_return :
  forall info p, fst (Player_handleTurn E info p) = Normal tt.

(** X16.  What [endTurn] saves is the turn it has just advanced to.  For a current
    player that is not a computer, distinct players and turn routines that
    return, [endTurn] succeeds and, the keys being pairwise distinct, the
    stored turn is the encoding of the old turn plus 1 and the active-game
    flag holds "1"; entries under other keys are as before. *)
Theorem endTurn_saves_the_advanced_turn (w : World) (current : ref) :
  NoDup (players (this w)) ->
  allObjects (players (this w)) w ->
  _currentPlayer (this w) = Some current ->
  is_Some (heap w !! current) ->
  isComputerAt w current = false ->
  (forall k k', localKeys E k = localKeys E k' -> k = k') ->
  exists w',
    endTurn E w = (Normal tt, w') /\
    localStorage w' !! localKeys E Turn = Some (encodeTurn E (_turn (this w) + 1)) /\
    localStorage w' !! localKeys E HasActiveGame = Some "1" /\
    (forall key, (forall k, localKeys E k <> key) ->
                 localStorage w' !! key = localStorage w !! key).
Proof.
  intros Hnodup Hobj Hcur Hheap Hhuman Hinj.
  destruct (forEachM_callback_normal E routines_return (players (this w)) w Hnodup Hobj)
    as (w1 & Hloop & (Hturn & Hstore & Hplayers & Hdata) & _ & Hdom & _).
  { intros c Hc _. rewrite Hcur in Hc. inversion Hc; subst. exact Hhuman. }
  set (w2 := set_this (set_turn (_turn (this w1) + 1)
                         (set_currentPlayer (Some current) (this w1))) w1).
  destruct (Hdom current Hheap) as [p2 Hp2].
  assert (Hsave := saveGame_explicit E w2 current p2).
  eexists. split; [|split; [|split]].
  - unfold endTurn, handleComputerTurn.
    erewrite bind_normal; cycle 1.
    { do 2 (erewrite bind_normal; [|reflexivity]).
      erewrite bind_normal; [|exact Hloop]. rewrite Hcur. reflexivity. }
    erewrite bind_normal; [|reflexivity].
    apply Hsave; [|reflexivity|exact Hp2].
    unfold allObjects. simpl. rewrite Hplayers.
    eapply Forall_impl; [exact Hobj|]. intros r. apply Hdom.
  - cbn [localStorage set_localStorage]. unfold savedStorage.
    rewrite lookup_insert_eq. simpl. rewrite Hturn. reflexivity.
  - cbn [localStorage set_localStorage]. unfold savedStorage, partlySaved.
    rewrite !lookup_insert_ne by (intros H; apply Hinj in H; discriminate).
    apply lookup_insert_eq.
  - intros key Hkey. cbn [localStorage set_localStorage].
    unfold savedStorage, partlySaved.
    rewrite !lookup_insert_ne by apply Hkey. simpl. exact (f_equal (fun s => s !! key) Hstore).
Qed.

End SavedTurn.

Lemma endTurn_saves_the_advanced_turn_witness :
  exists w',
    endTurn (Samples.collaborators Samples.quietTurn) Samples.humanAndComputer
      = (Normal tt, w') /\
    localStorage w' !! "turn" = Some "turn" /\
    localStorage w' !! "hasActiveGame" = Some "1".
Proof.
  destruct (endTurn_saves_the_advanced_turn (Samples.collaborators Samples.quietTurn)
              (fun _ _ => eq_refl) Samples.humanAndComputer 0%nat)
    as (w' & Hrun & Hturn & Hflag & _).
  - repeat constructor; rewrite ?list_elem_of_In; simpl; intuition discriminate.
  - repeat constructor; eexists; reflexivity.
  - reflexivity.
  - eexists; reflexivity.
  - reflexivity.
  - intros k k' Hk. destruct k, k'; (reflexivity || discriminate Hk).
  - exists w'. repeat split; assumption.
Defined.

Lemma saveGame_writes_every_local_key_witness :
  exists storage,
    saveGame (Samples.collaborators Samples.quietTurn) Samples.humanAndComputer
      = (Normal tt, set_localStorage storage Samples.humanAndComputer) /\
    storage !! "hasActiveGame" = Some "1" /\
    storage !! "currentPlayer" = Some "human".
Proof.
  destruct (saveGame_writes_every_local_key (Samples.collaborators Samples.quietTurn)
              Samples.humanAndComputer 0%nat (Samples.freshPlayer "human" Human 1000))
    as (storage & Hrun & _ & _ & Hvalues).
  - repeat constructor; eexists; reflexivity.
  - reflexivity.
  - reflexivity.
  - destruct Hvalues as (Hflag & _ & Hcurrent).
    + intros k k' Hk. destruct k, k'; (reflexivity || discriminate Hk).
    + exists storage. repeat split; assumption.
Defined.

Lemma endTurn_without_players_saves_partially_witness :
  exists w',
    endTurn (Samples.collaborators Samples.quietTurn) MoreSamples.noPlayers
      = (Throw (TypeError "deconstruct"), w') /\
    _turn (this w') = 2%Z /\
    localStorage w' !! "hasActiveGame" = Some "1" /\
    localStorage w' !! "turn" = None.
Proof.
  destruct (endTurn_without_players_saves_partially
              (Samples.collaborators Samples.quietTurn) MoreSamples.noPlayers
              eq_refl eq_refl)
    as (w' & Hrun & Hturn & _ & Hvalues).
  destruct Hvalues as (Hflag & Hkept & _).
  - intros k k' Hk. destruct k, k'; (reflexivity || discriminate Hk).
  - exists w'. repeat split; assumption.
Defined.

Lemma createFromLocalStorage_restores_witness :
  exists n w',
    createFromLocalStorage MoreSamples.restoring MoreSamples.withSavedGame = (Normal n, w') /\
    length (players n) = 2%nat /\
    Forall (fun r => r <> 0%nat) (players n) /\
    _turn n = 1%Z.
Proof.
  destruct (createFromLocalStorage_restores MoreSamples.restoring MoreSamples.withSavedGame
              tt tt tt tt tt tt MoreSamples.sampleTrains [MoreSamples.trackUpgrade] []
              [MoreSamples.aarhus; MoreSamples.odense]
              [Samples.freshPlayer "human" Human 1000;
               Samples.freshPlayer "computer" Computer 1000]
              "computer"
              eq_refl eq_refl eq_refl eq_refl eq_refl eq_refl eq_refl
              eq_refl eq_refl eq_refl eq_refl eq_refl eq_refl)
    as (n & w' & Hrun & _ & Hat & _ & Hfresh & _ & _ & _ & _ & Hturn & _).
  exists n, w'. repeat split.
  - exact Hrun.
  - apply Forall2_length in Hat. exact Hat.
  - eapply Forall_impl; [exact Hfresh|]. intros r Hr ->. discriminate Hr.
  - exact Hturn.
Defined.

End StorageFacts.
